(** * One-way folder synchronisation: a model of [folder_sync/_folder_sync.py],
      [folder_sync/manage_jobs.py] and [main.py]

    The Python code works on a file system through [os], [shutil] and
    [filecmp], prints to the console and appends to a log file.  The model
    keeps that shape:

    - a file system is a finite map from absolute paths (lists of path
      components) to entries, together with a set of protected paths on which
      every creation, overwrite and removal is refused with [PermissionError];
    - every mutating library call, every [print] and every line appended to
      the log file is recorded, in program order, in the [history] of the
      world;
    - the functions of the Python modules are state-passing functions over
      that world, exceptions are explicit results.

    Conventions.  Entry names are single path components, as [os.listdir]
    returns them, so [os.path.join dir name] is [dir ++ [name]] and
    [os.path.abspath] is the identity on the absolute, normalised paths used
    here.  The log file is a sink separate from the modelled file system (it
    lies outside the two folders), and appending to it does not fail.
    Symbolic links are not modelled.  Every directory can be listed and every
    file read: the failures of the file system are those that the protected
    paths bring about.  Texts (arguments, commands, names) are ASCII. *)

From stdpp Require Import gmap strings list fin_maps sorting.
From Stdlib Require Import Ascii.

Local Open Scope string_scope.
Local Open Scope list_scope.
Local Open Scope stdpp_scope.

(** ** Paths *)

Abbreviation path := (list string).

(** [strip p k] is [Some q] exactly when [k = p ++ q]. *)
Fixpoint strip (p k : path) : option path :=
  match p, k with
  | [], _ => Some k
  | a :: p', b :: k' => if decide (a = b) then strip p' k' else None
  | _ :: _, [] => None
  end.

(** [os.path.basename] and [os.path.dirname] on component lists. *)
Definition basename (p : path) : string := List.last p "".
Definition dirname (p : path) : path := removelast p.

Fixpoint join_with (sep : string) (l : list string) : string :=
  match l with
  | [] => ""
  | [x] => x
  | x :: l' => x +:+ sep +:+ join_with sep l'
  end.

(** The text of a path, as an f-string interpolates it. *)
Definition show_path (p : path) : string := "/" +:+ join_with "/" p.

(** ** File-system entries, exceptions, events *)

Inductive entry :=
| File (data : string) (mtime : nat)
| Dir.

Global Instance entry_eq_dec : EqDecision entry.
Proof. solve_decision. Defined.

Abbreviation fsmap := (gmap path entry).

Inductive exn :=
| FileNotFoundError (msg : string)
| NotADirectoryError (p : path)
| IsADirectoryError (p : path)
| FileExistsError (p : path)
| PermissionError (p : path)
| SameFileError (src dst : path)
| ShutilError (failed : list (path * path))
| ValueError (msg : string).

(** [str(e)], abridged: the kind of the error and the path it is about. *)
Definition show_exn (e : exn) : string :=
  match e with
  | FileNotFoundError msg => msg
  | NotADirectoryError p => "[Errno 20] Not a directory: " +:+ show_path p
  | IsADirectoryError p => "[Errno 21] Is a directory: " +:+ show_path p
  | FileExistsError p => "[Errno 17] File exists: " +:+ show_path p
  | PermissionError p => "[Errno 13] Permission denied: " +:+ show_path p
  | SameFileError a b =>
      show_path a +:+ " and " +:+ show_path b +:+ " are the same file"
  | ShutilError l =>
      "[" +:+ join_with ", "
        (map (λ ab, "(" +:+ show_path ab.1 +:+ ", " +:+ show_path ab.2 +:+ ")") l)
      +:+ "]"
  | ValueError msg => msg
  end.

Definition no_such_file (p : path) : exn :=
  FileNotFoundError ("[Errno 2] No such file or directory: " +:+ show_path p).

(** What the program does to the outside world, in program order. *)
Inductive event :=
| Print (msg : string)                 (* print(message) *)
| LogAppend (log_file_path : string) (stamp : nat) (msg : string)
                                       (* fp.write(f"[{now}] {message}\n") *)
| CopyTree (src dst : path)            (* shutil.copytree(src, dst, ...) *)
| Copy2 (src dst : path)               (* shutil.copy2(src, dst) *)
| RmTree (p : path)                    (* shutil.rmtree(p) *)
| Remove (p : path).                   (* os.remove(p) *)

Record world := World {
  files : fsmap;
  protected : gset path;
  clock : nat;
  history : list event
}.

Definition set_files (fs : fsmap) (w : world) : world :=
  World fs (protected w) (clock w) (history w).

Definition record (e : event) (w : world) : world :=
  World (files w) (protected w) (clock w) (history w ++ [e]).

(** The lines printed to the console and the messages appended to the log
    file, read off a history. *)
Definition console_of (h : list event) : list string :=
  omap (λ e, match e with Print m => Some m | _ => None end) h.

Definition log_of (h : list event) : list string :=
  omap (λ e, match e with LogAppend _ _ m => Some m | _ => None end) h.

(** The target of a mutating library call. *)
Definition target (e : event) : option path :=
  match e with
  | CopyTree _ dst | Copy2 _ dst => Some dst
  | RmTree p | Remove p => Some p
  | Print _ | LogAppend _ _ _ => None
  end.

(** Results of library calls and of the program's functions. *)
Inductive result (A : Type) :=
| Ok (a : A) (w : world)
| Err (e : exn) (w : world).
Arguments Ok {A} a w.
Arguments Err {A} e w.

(** ** [os] *)

Definition os_path_exists (fs : fsmap) (p : path) : bool :=
  bool_decide (is_Some (fs !! p)).

Definition os_path_isdir (fs : fsmap) (p : path) : bool :=
  bool_decide (fs !! p = Some Dir).

Definition child_name (p k : path) : option string :=
  match strip p k with
  | Some [n] => Some n
  | _ => None
  end.

Definition os_listdir (fs : fsmap) (p : path) : exn + list string :=
  match fs !! p with
  | Some Dir => inr (omap (child_name p) (map_to_list fs).*1)
  | Some (File _ _) => inl (NotADirectoryError p)
  | None => inl (no_such_file p)
  end.

Definition os_remove (p : path) (w : world) : result unit :=
  let w := record (Remove p) w in
  match files w !! p with
  | None => Err (no_such_file p) w
  | Some Dir => Err (IsADirectoryError p) w
  | Some (File _ _) =>
      if decide (p ∈ protected w) then Err (PermissionError p) w
      else Ok () (set_files (delete p (files w)) w)
  end.

(** [os.makedirs(base/rest, exist_ok)]: missing ancestors are created on the
    way; an existing leaf is accepted only when it is a directory and
    [exist_ok] is set. *)
Fixpoint os_makedirs_from (prot : gset path) (exist_ok : bool)
    (base rest : path) (fs : fsmap) : exn + fsmap :=
  match rest with
  | [] => inr fs
  | n :: rest' =>
      let p := base ++ [n] in
      match fs !! p with
      | Some (File _ _) =>
          inl (match rest' with [] => FileExistsError p | _ => NotADirectoryError p end)
      | Some Dir =>
          match rest' with
          | [] => if exist_ok then inr fs else inl (FileExistsError p)
          | _ => os_makedirs_from prot exist_ok p rest' fs
          end
      | None =>
          if decide (p ∈ prot) then inl (PermissionError p)
          else os_makedirs_from prot exist_ok p rest' (<[p := Dir]> fs)
      end
  end.

Definition os_makedirs (prot : gset path) (exist_ok : bool) (p : path) (fs : fsmap) :=
  os_makedirs_from prot exist_ok [] p fs.

(** ** [shutil] *)

(** [shutil.copy2(src, dst)]: when [dst] is a directory the file goes inside
    it, under the source's base name. *)
Definition copy2_target (fs : fsmap) (src dst : path) : path :=
  if os_path_isdir fs dst then dst ++ [basename src] else dst.

Definition shutil_copy2 (src dst : path) (w : world) : result unit :=
  let w := record (Copy2 src dst) w in
  let fs := files w in
  let dst' := copy2_target fs src dst in
  match fs !! src with
  | None => Err (no_such_file src) w
  | Some Dir => Err (IsADirectoryError src) w
  | Some (File data mtime) =>
      if decide (src = dst') then Err (SameFileError src dst') w
      else match fs !! dst' with
      | Some Dir => Err (IsADirectoryError dst') w
      | _ =>
          match fs !! dirname dst' with
          | None => Err (no_such_file dst') w
          | Some (File _ _) => Err (NotADirectoryError dst') w
          | Some Dir =>
              if decide (dst' ∈ protected w) then Err (PermissionError dst') w
              else Ok () (set_files (<[dst' := File data mtime]> fs) w)
          end
      end
  end.

(** The entries strictly below [src], by their path relative to [src]. *)
Definition below (fs : fsmap) (src : path) : list (path * entry) :=
  omap (λ ke, match strip src ke.1 with
              | Some (n :: q) => Some (n :: q, ke.2)
              | _ => None
              end) (map_to_list fs).

(** Copying the entry at [src ++ q] to [dst ++ q] inside a [copytree]: a
    directory is created (one that is there already is accepted only with
    [dirs_exist_ok]), a file is copied with [copy2].  The step fails on a
    protected destination and on a file where a directory must go (or the
    reverse). *)
Definition step_fails (prot : gset path) (dirs_exist_ok : bool) (fs : fsmap)
    (src dst q : path) : bool :=
  match fs !! (src ++ q) with
  | Some Dir =>
      match fs !! (dst ++ q) with
      | Some (File _ _) => true
      | Some Dir => negb dirs_exist_ok
      | None => bool_decide (dst ++ q ∈ prot)
      end
  | Some (File _ _) =>
      let t := copy2_target fs (src ++ q) (dst ++ q) in
      bool_decide (src ++ q = t) || bool_decide (fs !! t = Some Dir)
      || bool_decide (t ∈ prot)
  | None => false
  end.

Definition nonempty_prefixes (q : path) : list path :=
  map (λ i, take (S i) q) (seq 0 (length q)).

(** An entry is not reached when the step of one of its ancestors failed,
    and not copied when its own step fails. *)
Definition blocked (prot : gset path) (dirs_exist_ok : bool) (fs : fsmap)
    (src dst q : path) : bool :=
  existsb (step_fails prot dirs_exist_ok fs src dst) (nonempty_prefixes q).

Definition copy_plan (prot : gset path) (dirs_exist_ok : bool) (fs : fsmap)
    (src dst : path) (qe : path * entry) : option (path * entry) :=
  if blocked prot dirs_exist_ok fs src dst qe.1 then None
  else match qe.2 with
       | Dir => Some (dst ++ qe.1, Dir)
       | File data mtime =>
           Some (copy2_target fs (src ++ qe.1) (dst ++ qe.1), File data mtime)
       end.

(** [shutil.copytree(src, dst, dirs_exist_ok=...)]: the source is listed,
    the destination directory is made (with its missing ancestors), every
    entry below the source is copied; the failures are collected and raised
    together at the end, after everything else has been copied.  The entries
    copied are those that are below the source when the call is made: this
    is what the library does when the destination is not below a
    subdirectory of the source. *)
Definition shutil_copytree (src dst : path) (dirs_exist_ok : bool) (w : world)
    : result unit :=
  let w := record (CopyTree src dst) w in
  let fs := files w in
  match os_listdir fs src with
  | inl e => Err e w
  | inr _ =>
      match os_makedirs (protected w) dirs_exist_ok dst fs with
      | inl e => Err e w
      | inr fs1 =>
          let items := below fs src in
          let fs2 :=
            list_to_map (omap (copy_plan (protected w) dirs_exist_ok fs src dst) items)
            ∪ fs1 in
          let failed :=
            omap (λ qe, if step_fails (protected w) dirs_exist_ok fs src dst qe.1
                           && negb (blocked (protected w) dirs_exist_ok fs src dst
                                      (dirname qe.1))
                        then Some (src ++ qe.1, dst ++ qe.1) else None) items in
          match failed with
          | [] => Ok () (set_files fs2 w)
          | _ => Err (ShutilError failed) (set_files fs2 w)
          end
      end
  end.

(** [shutil.rmtree(p)]: the whole subtree goes.  The order in which the
    entries are visited is that of [os.scandir], which is not specified; the
    model takes the run in which a protected entry is met first, so that a
    refused [rmtree] removes nothing (in another order some entries are
    removed before the refusal). *)
Definition shutil_rmtree (p : path) (w : world) : result unit :=
  let w := record (RmTree p) w in
  match files w !! p with
  | None => Err (no_such_file p) w
  | Some (File _ _) => Err (NotADirectoryError p) w
  | Some Dir =>
      match elements (dom (filter (λ ke, p `prefix_of` ke.1) (files w)) ∩ protected w) with
      | k :: _ => Err (PermissionError k) w
      | [] => Ok () (set_files (filter (λ ke, ¬ p `prefix_of` ke.1) (files w)) w)
      end
  end.

(** ** [filecmp] *)

Definition DEFAULT_IGNORES : list string :=
  ["RCS"; "CVS"; "tags"; ".git"; ".hg"; ".bzr"; "_darcs"; "__pycache__"].

(** [os.curdir] and [os.pardir], the default of [hide]. *)
Definition DEFAULT_HIDE : list string := ["."; ".."].

Definition _filter (flist skip : list string) : list string :=
  filter (λ x, x ∉ skip) flist.

Definition str_le (a b : string) : Prop := String.leb a b = true.

Global Instance str_le_dec : RelDecision str_le.
Proof. intros a b. unfold str_le. apply _. Defined.

(** [list.sort()] on names. *)
Definition sort_names (l : list string) : list string := merge_sort str_le l.

(** [filecmp.cmp(f1, f2, shallow=True)]: [None] stands for the [OSError] of
    a failing [os.stat]. *)
Definition filecmp_cmp (fs : fsmap) (f1 f2 : path) : option bool :=
  match fs !! f1, fs !! f2 with
  | Some (File d1 m1), Some (File d2 m2) =>
      if decide ((String.length d1, m1) = (String.length d2, m2)) then Some true
      else if decide (String.length d1 ≠ String.length d2) then Some false
      else Some (bool_decide (d1 = d2))
  | Some _, Some _ => Some false
  | _, _ => None
  end.

Inductive kind := BothDirs | BothFiles | Funny.

Global Instance kind_eq_dec : EqDecision kind.
Proof. solve_decision. Defined.

(** The test of [dircmp.phase2] on a common name. *)
Definition phase2_kind (fs : fsmap) (a b : path) (x : string) : kind :=
  match fs !! (a ++ [x]), fs !! (b ++ [x]) with
  | Some Dir, Some Dir => BothDirs
  | Some (File _ _), Some (File _ _) => BothFiles
  | _, _ => Funny
  end.

Record dircmp := Dircmp {
  left_list : list string;
  right_list : list string;
  common : list string;
  left_only : list string;
  right_only : list string;
  common_dirs : list string;
  common_files : list string;
  common_funny : list string;
  same_files : list string;
  diff_files : list string;
  funny_files : list string
}.

(** [filecmp.dircmp(a, b)] with the default [ignore] and [hide], all its
    attributes computed (the program reads [left_only] and [diff_files]
    before it changes anything, which computes every phase). *)
Definition filecmp_dircmp (fs : fsmap) (a b : path) : exn + dircmp :=
  match os_listdir fs a with
  | inl e => inl e
  | inr la =>
      match os_listdir fs b with
      | inl e => inl e
      | inr lb =>
          let ll := sort_names (_filter la (DEFAULT_HIDE ++ DEFAULT_IGNORES)) in
          let rl := sort_names (_filter lb (DEFAULT_HIDE ++ DEFAULT_IGNORES)) in
          let cm := filter (λ x, x ∈ rl) ll in
          let cf := filter (λ x, phase2_kind fs a b x = BothFiles) cm in
          inr {| left_list := ll;
                 right_list := rl;
                 common := cm;
                 left_only := filter (λ x, x ∉ rl) ll;
                 right_only := filter (λ x, x ∉ ll) rl;
                 common_dirs := filter (λ x, phase2_kind fs a b x = BothDirs) cm;
                 common_files := cf;
                 common_funny := filter (λ x, phase2_kind fs a b x = Funny) cm;
                 same_files :=
                   filter (λ x, filecmp_cmp fs (a ++ [x]) (b ++ [x]) = Some true) cf;
                 diff_files :=
                   filter (λ x, filecmp_cmp fs (a ++ [x]) (b ++ [x]) = Some false) cf;
                 funny_files :=
                   filter (λ x, filecmp_cmp fs (a ++ [x]) (b ++ [x]) = None) cf |}
      end
  end.

(** ** [folder_sync/_folder_sync.py] *)

(** [_write_to_log]: one line, stamped with the current time, is appended
    to the log file; time moves on. *)
Definition _write_to_log (log_file_path message : string) (w : world) : world :=
  World (files w) (protected w) (S (clock w))
        (history w ++ [LogAppend log_file_path (clock w) message]).

(** [_custom_print]: [print(message)], then [_write_to_log]. *)
Definition _custom_print (log_file_path message : string) (w : world) : world :=
  _write_to_log log_file_path message (record (Print message) w).

Definition msg_copy_folder (source_path replica_path : path) : string :=
  "Copying folder from " +:+ show_path source_path +:+ " to " +:+ show_path replica_path.

Definition msg_copy_file (source_path replica_path : path) : string :=
  "Copying file from " +:+ show_path source_path +:+ " to " +:+ show_path replica_path.

Definition msg_copy_exn (path_name : string) (e : exn) : string :=
  "Exception while copying modified file/folder " +:+ path_name +:+ ": " +:+ show_exn e.

Definition msg_delete_folder (p : path) : string := "Deleting folder " +:+ show_path p.

Definition msg_delete_file (p : path) : string := "Deleting file " +:+ show_path p.

Definition msg_delete_exn (sub_folder_name : string) (e : exn) : string :=
  "Exception during file/folder deletion " +:+ sub_folder_name +:+ ": " +:+ show_exn e.

Definition msg_no_source (source_folder_path : path) : string :=
  "Could not find the source folder at the provided path: " +:+ show_path source_folder_path.

Definition msg_no_replica (source_folder_path replica_folder_path : path) : string :=
  "Replica folder not found at path " +:+ show_path replica_folder_path +:+ ". "
  +:+ "Copying entire source folder from path " +:+ show_path source_folder_path.

(** The [try] block of [_copy_new_modified_files] for one name (lines
    58-74): the action is announced, then attempted. *)
Definition copy_attempt (source_folder_path replica_folder_path : path)
    (log_file_path path_name : string) (w : world) : result unit :=
  let source_path := source_folder_path ++ [path_name] in
  let replica_path := replica_folder_path ++ [path_name] in
  if os_path_isdir (files w) source_path then
    shutil_copytree source_path replica_path true
      (_custom_print log_file_path (msg_copy_folder source_path replica_path) w)
  else
    shutil_copy2 source_path replica_path
      (_custom_print log_file_path (msg_copy_file source_path replica_path) w).

(** One turn of the loop, with its [except] clause (lines 75-80).  Every
    exception the modelled library calls raise is an [OSError], which the
    clause catches.  The result is the new [return_val]. *)
Definition copy_entry (source_folder_path replica_folder_path : path)
    (log_file_path : string) (st : bool * world) (path_name : string) : bool * world :=
  match copy_attempt source_folder_path replica_folder_path log_file_path path_name st.2 with
  | Ok _ w' => (st.1, w')
  | Err e w' => (false, _custom_print log_file_path (msg_copy_exn path_name e) w')
  end.

Definition _copy_new_modified_files (source_folder_path replica_folder_path : path)
    (paths_list : list string) (log_file_path : string) (w : world) : bool * world :=
  fold_left (copy_entry source_folder_path replica_folder_path log_file_path)
            paths_list (true, w).

(** The [try] block of [_delete_locations] for one name (lines 106-112). *)
Definition delete_attempt (folder_root_path : path)
    (log_file_path sub_folder_name : string) (w : world) : result unit :=
  let curr_subfolder_name := folder_root_path ++ [sub_folder_name] in
  if os_path_isdir (files w) curr_subfolder_name then
    shutil_rmtree curr_subfolder_name
      (_custom_print log_file_path (msg_delete_folder curr_subfolder_name) w)
  else
    os_remove curr_subfolder_name
      (_custom_print log_file_path (msg_delete_file curr_subfolder_name) w).

Definition delete_entry (folder_root_path : path) (log_file_path : string)
    (st : bool * world) (sub_folder_name : string) : bool * world :=
  match delete_attempt folder_root_path log_file_path sub_folder_name st.2 with
  | Ok _ w' => (st.1, w')
  | Err e w' => (false, _custom_print log_file_path (msg_delete_exn sub_folder_name e) w')
  end.

Definition _delete_locations (folder_root_path : path)
    (sub_folder_names : list string) (log_file_path : string) (w : world) : bool * world :=
  fold_left (delete_entry folder_root_path log_file_path) sub_folder_names (true, w).

(** How a call of [_folder_sync] ends: it returns, or an exception leaves
    it.  [OutOfFuel] is the model's own: the recursion budget ran out. *)
Inductive outcome :=
| Returned (w : world)
| Raised (e : exn) (w : world)
| OutOfFuel.

(** A [for] loop whose body may raise: the exception leaves the loop. *)
Fixpoint for_each (body : string → world → outcome) (names : list string)
    (w : world) : outcome :=
  match names with
  | [] => Returned w
  | x :: names' =>
      match body x w with
      | Returned w' => for_each body names' w'
      | o => o
      end
  end.

Fixpoint _folder_sync (fuel : nat) (source_folder_path replica_folder_path : path)
    (log_file_path : string) (w : world) : outcome :=
  match fuel with
  | O => OutOfFuel
  | S fuel' =>
      if negb (os_path_exists (files w) source_folder_path) then
        let message := msg_no_source source_folder_path in
        Raised (FileNotFoundError message)
               (_write_to_log log_file_path ("EXCEPTION: " +:+ message) w)
      else if negb (os_path_exists (files w) replica_folder_path) then
        let message := msg_no_replica source_folder_path replica_folder_path in
        match shutil_copytree source_folder_path replica_folder_path false
                (_custom_print log_file_path message w) with
        | Ok _ w' => Returned w'
        | Err e w' => Raised e w'
        end
      else
        match filecmp_dircmp (files w) source_folder_path replica_folder_path with
        | inl e => Raised e w
        | inr comparison_result =>
            let '(_return_val, w1) :=
              _copy_new_modified_files source_folder_path replica_folder_path
                (left_only comparison_result ++ diff_files comparison_result)
                log_file_path w in
            if negb _return_val then Returned w1
            else
              let '(_return_val, w2) :=
                _delete_locations replica_folder_path
                  (right_only comparison_result) log_file_path w1 in
              if negb _return_val then Returned w2
              else
                for_each
                  (λ sub_folder_name,
                     _folder_sync fuel'
                       (source_folder_path ++ [sub_folder_name])
                       (replica_folder_path ++ [sub_folder_name])
                       log_file_path)
                  (common_dirs comparison_result) w2
        end
  end.

(** ** [folder_sync/manage_jobs.py] *)

(** A line of the user's crontab: the command and the minutes field, which
    [job.minute.every(n)] sets to "every [n] minutes". *)
Record job := Job {
  command : string;
  minute_every : option string
}.

(** The scheduler's world: the crontab as last written by [cron.write()],
    which is what [CronTab(user=True)] reads, and what was printed. *)
Record cron_world := CronWorld {
  crontab : list job;
  stdout : list string
}.

(** How a call of the two functions ends: it returns, or an exception of
    the crontab library leaves it; the scheduler's world is given in both
    cases. *)
Inductive cron_outcome :=
| CronReturned (c : cron_world)
| CronRaised (e : exn) (c : cron_world).

Definition after (o : cron_outcome) : cron_world :=
  match o with CronReturned c | CronRaised _ c => c end.

(** White space for [str.strip] and [int], on ASCII texts: the blank, the
    controls 9 to 13 and the separators 28 to 31. *)
Definition is_space (ch : ascii) : bool :=
  let n := nat_of_ascii ch in
  Nat.eqb n 32 || (Nat.leb 9 n && Nat.leb n 13) || (Nat.leb 28 n && Nat.leb n 31).

Fixpoint lstrip (s : string) : string :=
  match s with
  | EmptyString => EmptyString
  | String ch s' => if is_space ch then lstrip s' else s
  end.

(** [str.strip()]. *)
Definition str_strip (s : string) : string :=
  String.rev (lstrip (String.rev (lstrip s))).

Definition is_digit (ch : ascii) : bool :=
  let n := nat_of_ascii ch in Nat.leb 48 n && Nat.leb n 57.

(** The digits of [int(text)]: decimal digits, with single underscores
    allowed between two digits. *)
Fixpoint digits_value (acc : N) (after_digit : bool) (s : string) : option N :=
  match s with
  | EmptyString => if after_digit then Some acc else None
  | String ch s' =>
      if is_digit ch then
        digits_value (10 * acc + (N_of_ascii ch - 48))%N true s'
      else if Ascii.eqb ch "_" && after_digit then digits_value acc false s'
      else None
  end.

(** [int(text)] when it is a natural number: white space around the number
    and a plus sign before it are accepted. *)
Definition int_of_text (text : string) : option N :=
  match str_strip text with
  | String "+" s => digits_value 0 false s
  | s => digits_value 0 false s
  end.

(** What [job.minute.every(interval)] accepts when [cron.write()] renders
    the job: [int(interval)] must be a number of minutes from 1 to 59. *)
Definition minutes_of (interval : string) : option N :=
  match int_of_text interval with
  | Some n => if decide (1 ≤ n ≤ 59)%N then Some n else None
  | None => None
  end.

(** The decimal text of a number below 100. *)
Definition show_minutes (n : N) : string :=
  let digit d := ascii_of_N (48 + d) in
  if decide (n < 10)%N then String (digit n) EmptyString
  else String (digit (n / 10)%N) (String (digit (n mod 10)%N) EmptyString).

(** The [ValueError] of a refused interval; of its message the model keeps
    the interval. *)
Definition msg_bad_interval (interval : string) : string :=
  "invalid interval: " +:+ interval.

(** The [ValueError] with which [cron.write()] refuses to render a job that
    has no command. *)
Definition msg_no_command : string := "Refusing to render invalid crontab.".

(** [job.minute.every(interval)], with the check that [cron.write()] makes
    of it. *)
Definition every (interval : string) (j : job) : exn + job :=
  match minutes_of interval with
  | Some n => inr (Job (command j) (Some (show_minutes n)))
  | None => inl (ValueError (msg_bad_interval interval))
  end.

(** [for job in found_jobs: job.minute.every(interval)], on the crontab the
    found jobs are part of. *)
Fixpoint every_found (cmd interval : string) (cron : list job) : exn + list job :=
  match cron with
  | [] => inr []
  | j :: cron' =>
      if decide (command j = cmd) then
        match every interval j with
        | inl e => inl e
        | inr j' =>
            match every_found cmd interval cron' with
            | inl e => inl e
            | inr l => inr (j' :: l)
            end
        end
      else
        match every_found cmd interval cron' with
        | inl e => inl e
        | inr l => inr (j :: l)
        end
  end.

(** [add_job_to_crontab].  [cron.new(command=command)] keeps the command
    without the white space at its ends, and a job made with the empty
    command is not rendered.  When the library raises, nothing has been
    written and nothing printed. *)
Definition add_job_to_crontab (cmd interval : string) (c : cron_world) : cron_outcome :=
  let cron := crontab c in
  let found_jobs := filter (λ j, command j = cmd) cron in
  if decide (length found_jobs = 0) then
    match every interval (Job (str_strip cmd) None) with
    | inl e => CronRaised e c
    | inr job =>
        if decide (cmd = "") then CronRaised (ValueError msg_no_command) c
        else
          CronReturned
            (CronWorld (cron ++ [job])
               (stdout c ++ ["Cron job " +:+ cmd +:+ " added with frequency every "
                             +:+ interval +:+ " minutes!"]))
    end
  else
    match every_found cmd interval cron with
    | inl e => CronRaised e c
    | inr cron' =>
        CronReturned
          (CronWorld cron'
             (stdout c ++ ["Cron job already exists, modifying frequency to every "
                           +:+ interval +:+ " minutes!"]))
    end.

Definition del_job_from_crontab (cmd : string) (c : cron_world) : cron_world :=
  let cron := crontab c in
  let jobs_to_remove := filter (λ j, command j = cmd) cron in
  if decide (0 < length jobs_to_remove) then
    CronWorld (filter (λ j, command j ≠ cmd) cron)
      (stdout c ++ ["Cron job(s) with command " +:+ cmd +:+ " removed."])
  else
    CronWorld cron (stdout c ++ ["No matching cron job found for command " +:+ cmd]).

(** ** [main.py] *)

Definition _MODE_ADD : string := "add".
Definition _MODE_DEL : string := "del".

(** [str.lower] on the ASCII letters. *)
Definition lower_ascii (c : ascii) : ascii :=
  let n := nat_of_ascii c in
  if Nat.leb 65 n && Nat.leb n 90 then ascii_of_nat (n + 32) else c.

Fixpoint lower (s : string) : string :=
  match s with
  | EmptyString => EmptyString
  | String c s' => String (lower_ascii c) (lower s')
  end.

(** What the script reads from its surroundings: its own name and folder
    ([__file__]), and whether [venv/bin/python] exists next to it. *)
Record main_env := MainEnv {
  script_name : string;
  curr_file_root_folder : string;
  venv_python_exists : bool
}.

(** [os.path.join] on two path texts, the second one relative. *)
Definition os_path_join (a b : string) : string :=
  if decide (a = "") then b
  else if String.prefix "/" (String.rev a) then a +:+ b
  else a +:+ "/" +:+ b.

Definition nl : string := String (ascii_of_nat 10) EmptyString.

(** A list of arguments as an f-string shows it, for arguments without
    quotes, backslashes and control characters. *)
Definition show_args (l : list string) : string :=
  "[" +:+ join_with ", " (map (λ a, "'" +:+ a +:+ "'") l) +:+ "]".

Definition usage (env : main_env) : string :=
  "Expected usage: python " +:+ script_name env +:+ " <source folder path> "
  +:+ "<replica folder path> <synchronisation interval (minutes)> <log file path> "
  +:+ "<mode>".

Definition command_to_add (env : main_env) (argv : list string) : string :=
  let _source_folder_path := nth 1 argv "" in
  let _replica_folder_path := nth 2 argv "" in
  let _log_file := nth 4 argv "" in
  let file_to_run := os_path_join (curr_file_root_folder env) "folder_sync/_folder_sync.py" in
  let curr_root_folder_python := os_path_join (curr_file_root_folder env) "venv/bin/python" in
  let PYTHON_EXEC := if venv_python_exists env then curr_root_folder_python else "python" in
  "cd " +:+ curr_file_root_folder env +:+ ";" +:+ PYTHON_EXEC +:+ " " +:+ file_to_run
  +:+ " " +:+ _source_folder_path +:+ " " +:+ _replica_folder_path +:+ " " +:+ _log_file.

Definition msg_invalid_mode (_mode : string) : string :=
  "Invalid value assigned to <mode> argument! Expected " +:+ _MODE_ADD +:+ " or "
  +:+ _MODE_DEL +:+ ", " +:+ "but found: " +:+ _mode.

(** How the script ends: it runs off its last line, or an exception ends
    it. *)
Inductive exit := Finished (c : cron_world) | Failed (e : exn) (c : cron_world).

(** The body under [if __name__ == "__main__":] of main.py.  The [raise] of
    line 51 follows the [if]/[elif] and belongs to neither branch; an
    exception of [add_job_to_crontab] ends the script before it. *)
Definition main (env : main_env) (argv : list string) (c : cron_world) : exit :=
  if decide (length argv < 6) then
    Failed (ValueError ("Not enough arguments provided!" +:+ nl +:+ usage env)) c
  else
    let c :=
      if decide (6 < length argv) then
        CronWorld (crontab c)
          (stdout c ++ ["Additional (unexpected) command line arguments specified!"
                        +:+ nl +:+ usage env +:+ nl
                        +:+ "The following arguments will be ignored: "
                        +:+ show_args (drop 6 argv)])
      else c in
    let _sync_interval := nth 3 argv "" in
    let _mode := nth 5 argv "" in
    if decide (lower _mode = _MODE_ADD) then
      match add_job_to_crontab (command_to_add env argv) _sync_interval c with
      | CronReturned c' => Failed (ValueError (msg_invalid_mode _mode)) c'
      | CronRaised e c' => Failed e c'
      end
    else
      let c :=
        if decide (lower _mode = _MODE_DEL) then
          del_job_from_crontab (command_to_add env argv) c
        else c in
      Failed (ValueError (msg_invalid_mode _mode)) c.

(** ** The script part of [folder_sync/_folder_sync.py] *)

Definition sync_usage (script : string) : string :=
  "Expected usage: python " +:+ script +:+ " <source folder path> "
  +:+ "<replica folder path> <log file path>".

(** The warning of lines 196-201; the two last f-strings follow one another
    without a line break. *)
Definition msg_extra_arguments (script : string) (argv : list string) : string :=
  "Additional (unexpected) command line arguments specified!" +:+ nl
  +:+ sync_usage script
  +:+ "The following arguments will be ignored: " +:+ show_args (drop 4 argv).

(** The body under [if __name__ == "__main__":] (lines 188-207).  [script]
    is [os.path.basename(__file__)]; [abspath] is [os.path.abspath], which
    [_folder_sync] applies to the two path texts it is given (lines 138 and
    139) and which the model of [_folder_sync] takes as done. *)
Definition folder_sync_main (abspath : string → path) (script : string) (fuel : nat)
    (argv : list string) (w : world) : outcome :=
  if decide (length argv < 4) then
    Raised (ValueError ("Not enough arguments provided!" +:+ nl +:+ sync_usage script)) w
  else
    let w :=
      if decide (4 < length argv) then record (Print (msg_extra_arguments script argv)) w
      else w in
    let _source_folder_path := nth 1 argv "" in
    let _replica_folder_path := nth 2 argv "" in
    let _log_file := nth 3 argv "" in
    _folder_sync fuel (abspath _source_folder_path) (abspath _replica_folder_path)
      _log_file w.

(** ** Vocabulary of the statements *)

Definition world_of {A} (r : result A) : world :=
  match r with Ok _ w | Err _ w => w end.

(** What happened between two worlds of one run. *)
Definition events_since (w w' : world) : list event :=
  drop (length (history w)) (history w').

(** The two ways an entry of the reconciler can be announced and attempted,
    and the same for the purger. *)
Definition copy_announce (source_folder_path replica_folder_path : path)
    (path_name : string) : list (string * event) :=
  let source_path := source_folder_path ++ [path_name] in
  let replica_path := replica_folder_path ++ [path_name] in
  [ (msg_copy_folder source_path replica_path, CopyTree source_path replica_path);
    (msg_copy_file source_path replica_path, Copy2 source_path replica_path) ].

Definition delete_announce (folder_root_path : path) (sub_folder_name : string)
    : list (string * event) :=
  let curr_subfolder_name := folder_root_path ++ [sub_folder_name] in
  [ (msg_delete_folder curr_subfolder_name, RmTree curr_subfolder_name);
    (msg_delete_file curr_subfolder_name, Remove curr_subfolder_name) ].

(** The trace of one entry: the action line on the console and in the log,
    then the library call; when the call fails, the exception line follows on
    the console and in the log. *)
Inductive turn (log : string) (announce : list (string * event))
    (exn_line : exn → string) : list event → bool → Prop :=
| turn_done act op t :
    (act, op) ∈ announce →
    turn log announce exn_line [Print act; LogAppend log t act; op] true
| turn_failed act op t e t' :
    (act, op) ∈ announce →
    turn log announce exn_line
      [Print act; LogAppend log t act; op;
       Print (exn_line e); LogAppend log t' (exn_line e)]
      false.


(** No line of the console reports an exception of an entry. *)
Definition failure_free (evs : list event) : Prop :=
  Forall (λ m, String.prefix "Exception " m = false) (console_of evs).

(** Neither folder lies inside the other. *)
Definition apart (s r : path) : Prop := ¬ s `prefix_of` r ∧ ¬ r `prefix_of` s.

(** Every proper ancestor of an entry is a directory. *)
Definition well_formed (fs : fsmap) : Prop :=
  ∀ p q, q ≠ [] → is_Some (fs !! (p ++ q)) → fs !! p = Some Dir.

Definition well_formedb (fs : fsmap) : bool :=
  forallb (λ k, forallb (λ i, bool_decide (fs !! take i k = Some Dir)) (seq 0 (length k)))
          (map_to_list fs).*1.

(** Names that [dircmp] looks at. *)
Definition visible (x : string) : Prop := x ∉ DEFAULT_HIDE ++ DEFAULT_IGNORES.

(** The replica folder [r] agrees with the source folder [s] as far as the
    program can tell, down to depth [k]: the same visible names on both
    sides, files that [filecmp.cmp] takes for equal, and agreement inside
    every directory the two have in common. *)
Fixpoint in_sync (k : nat) (fs : fsmap) (s r : path) : Prop :=
  match k with
  | O => False
  | S k' =>
      fs !! s = Some Dir ∧ fs !! r = Some Dir ∧
      ∀ x, visible x →
        (is_Some (fs !! (s ++ [x])) ↔ is_Some (fs !! (r ++ [x]))) ∧
        (phase2_kind fs s r x = BothFiles →
           filecmp_cmp fs (s ++ [x]) (r ++ [x]) = Some true) ∧
        (phase2_kind fs s r x = BothDirs → in_sync k' fs (s ++ [x]) (r ++ [x]))
  end.

(** The entry [n] of the replica folder is a copy of the entry [n] of the
    source folder: the same file, or a directory with the same subtree. *)
Definition copied (fs : fsmap) (s r : path) (n : string) : Prop :=
  match fs !! (s ++ [n]) with
  | Some Dir => ∀ q, fs !! ((r ++ [n]) ++ q) = fs !! ((s ++ [n]) ++ q)
  | Some (File d m) => fs !! (r ++ [n]) = Some (File d m)
  | None => False
  end.

(** The entry [n] is one the reconciler is given by the orchestrator: new,
    with nothing in its place in the replica folder, or a file on both
    sides. *)
Definition copyable (fs : fsmap) (s r : path) (n : string) : Prop :=
  (∀ q, fs !! ((r ++ [n]) ++ q) = None) ∨ phase2_kind fs s r n = BothFiles.

(** Below [r], nothing hangs under a missing entry. *)
Definition rooted (r : path) (fs : fsmap) : Prop :=
  ∀ q q', fs !! (r ++ q) = None → fs !! ((r ++ q) ++ q') = None.

(** [within t fs fs']: the only entries that differ are at or below [t], or
    are missing ancestors of [t] that were created as directories. *)
Definition within (t : path) (fs fs' : fsmap) : Prop :=
  ∀ p, fs' !! p = fs !! p ∨ t `prefix_of` p
       ∨ (p `prefix_of` t ∧ fs !! p = None ∧ fs' !! p = Some Dir).

(** [confined r fs fs']: the same, with [r] itself changed only by being
    created. *)
Definition confined (r : path) (fs fs' : fsmap) : Prop :=
  ∀ p, fs' !! p = fs !! p ∨ (∃ n q, p = r ++ n :: q)
       ∨ (p `prefix_of` r ∧ fs !! p = None ∧ fs' !! p = Some Dir).

(** [within_names r names fs fs']: the only entries that differ are at or
    below [r ++ [n]] for a name [n] of the list, or are missing ancestors of
    [r], or [r] itself, that were created as directories. *)
Definition within_names (r : path) (names : list string) (fs fs' : fsmap) : Prop :=
  ∀ p, fs' !! p = fs !! p ∨ (∃ n, n ∈ names ∧ r ++ [n] `prefix_of` p)
       ∨ (p `prefix_of` r ∧ fs !! p = None ∧ fs' !! p = Some Dir).

(** Every library call of a trace has its destination at or below [r]. *)
Definition targets_below (r : path) (evs : list event) : Prop :=
  Forall (λ e, ∀ t, target e = Some t → r `prefix_of` t) evs.

(** Between [w] and [w'] the program stayed in the replica folder [r]. *)
Definition stays (r : path) (w w' : world) : Prop :=
  confined r (files w) (files w') ∧
  ∃ evs, history w' = history w ++ evs ∧ targets_below r evs.

Definition final (o : outcome) : option world :=
  match o with
  | Returned w | Raised _ w => Some w
  | OutOfFuel => None
  end.

(** The exception of line 144, told from those of the library by its
    message. *)
Definition is_missing_source (e : exn) : bool :=
  match e with
  | FileNotFoundError m => String.prefix "Could not find the source folder" m
  | _ => false
  end.

(** What the log file received and the console did not. *)
Definition log_only (o : outcome) : list string :=
  match o with
  | Raised e _ => if is_missing_source e then ["EXCEPTION: " +:+ show_exn e] else []
  | _ => []
  end.

(** The log file received what the console received, and then [extra]. *)
Definition parity (w : world) (extra : list string) (w' : world) : Prop :=
  ∃ evs, history w' = history w ++ evs ∧ log_of evs = console_of evs ++ extra.

(** The membership of the lists the program reads, in terms of the file
    system. *)
Record dircmp_facts (fs : fsmap) (a b : path) (cmp : dircmp) : Prop := {
  df_left_only x :
    x ∈ left_only cmp ↔
    visible x ∧ is_Some (fs !! (a ++ [x])) ∧ fs !! (b ++ [x]) = None;
  df_right_only x :
    x ∈ right_only cmp ↔
    visible x ∧ is_Some (fs !! (b ++ [x])) ∧ fs !! (a ++ [x]) = None;
  df_common_dirs x :
    x ∈ common_dirs cmp ↔ visible x ∧ phase2_kind fs a b x = BothDirs;
  df_diff_files x :
    x ∈ diff_files cmp ↔
    visible x ∧ phase2_kind fs a b x = BothFiles ∧
    filecmp_cmp fs (a ++ [x]) (b ++ [x]) = Some false;
  df_nodup_copy : NoDup (left_only cmp ++ diff_files cmp);
  df_nodup_right : NoDup (right_only cmp);
  df_nodup_dirs : NoDup (common_dirs cmp)
}.

(** [parity] for the world an outcome carries. *)
Definition parity_outcome (w : world) (o : outcome) : Prop :=
  match final o with
  | Some w' => parity w (log_only o) w'
  | None => True
  end.

(** The scheduler's world a run of the script leaves. *)
Definition exit_world (x : exit) : cron_world :=
  match x with Finished c | Failed _ c => c end.

(** The characters that the crontab file format treats specially in a
    command: number sign, percent sign, backslash, line break. *)
Definition is_special (ch : ascii) : bool :=
  let n := nat_of_ascii ch in
  Nat.eqb n 35 || Nat.eqb n 37 || Nat.eqb n 92 || Nat.eqb n 10 || Nat.eqb n 13.

Fixpoint no_special (s : string) : bool :=
  match s with
  | EmptyString => true
  | String ch s' => negb (is_special ch) && no_special s'
  end.

(** A command that the crontab library keeps as it is given and reads back
    from the crontab file as it was written: not empty, no white space at
    its ends, no special character. *)
Definition plain_command (cmd : string) : Prop :=
  cmd ≠ "" ∧ str_strip cmd = cmd ∧ no_special cmd = true.

(** The length of the longest path of the file system. *)
Definition depth (fs : fsmap) : nat := max_list (length <$> (map_to_list fs).*1).

(** In the directories [a] and [b], the names [dircmp] looks at are the
    same on both sides, and the files of the same name are equal for
    [filecmp.cmp]. *)
Definition level_agrees (fs : fsmap) (a b : path) : Prop :=
  ∀ x, visible x →
    (is_Some (fs !! (a ++ [x])) ↔ is_Some (fs !! (b ++ [x]))) ∧
    (phase2_kind fs a b x = BothFiles →
       filecmp_cmp fs (a ++ [x]) (b ++ [x]) = Some true).

(** [prepend h w] is the world [w] with [h] in front of its history. *)
Definition prepend (h : list event) (w : world) : world :=
  World (files w) (protected w) (clock w) (h ++ history w).

Definition result_map {A} (f : world → world) (r : result A) : result A :=
  match r with
  | Ok a w => Ok a (f w)
  | Err e w => Err e (f w)
  end.

Definition outcome_map (f : world → world) (o : outcome) : outcome :=
  match o with
  | Returned w => Returned (f w)
  | Raised e w => Raised e (f w)
  | OutOfFuel => OutOfFuel
  end.

(** The world [w] before anything happened in it. *)
Definition unwritten (w : world) : world :=
  World (files w) (protected w) (clock w) [].

(** ** Worlds used in the examples *)

Definition mk_world (fs : fsmap) (prot : gset path) : world := World fs prot 0 [].

(** /s holds a file and a directory with a file; /r holds a stale file. *)
Definition fs_demo : fsmap :=
  list_to_map [ ([], Dir); (["s"], Dir); (["r"], Dir);
                (["s"; "a.txt"], File "alpha" 10);
                (["s"; "d"], Dir);
                (["s"; "d"; "b.txt"], File "beta" 11);
                (["r"; "old.txt"], File "stale" 5) ].


(** /s/a.txt changed; the copy in /r is older. *)
Definition fs_changed : fsmap :=
  list_to_map [ ([], Dir); (["s"], Dir); (["r"], Dir);
                (["s"; "a.txt"], File "new text" 20);
                (["r"; "a.txt"], File "old" 10) ].

(** The source holds a directory whose name [dircmp] ignores. *)
Definition fs_ignored : fsmap :=
  list_to_map [ ([], Dir); (["s"], Dir); (["r"], Dir);
                (["s"; ".git"], Dir);
                (["s"; ".git"; "config"], File "[core]" 3);
                (["s"; "tags"], File "main" 4) ].

(** The source folder /r/s lies inside the replica folder /r. *)
Definition fs_nested : fsmap :=
  list_to_map [ ([], Dir); (["r"], Dir); (["r"; "s"], Dir);
                (["r"; "s"; "f"], File "data" 7) ].

(** [fs_demo] with the replica's a.txt protected, and what [dircmp] finds
    between /s and /r there. *)
Definition w_locked : world := mk_world fs_demo {[ ["r"; "a.txt"] ]}.

Definition cmp_demo : dircmp :=
  Dircmp ["a.txt"; "d"] ["old.txt"] [] ["a.txt"; "d"] ["old.txt"] [] [] [] [] [] [].



(** [fs_demo] after one run of the orchestrator from /s to /r. *)
Definition w_demo : world := mk_world fs_demo ∅.

Definition w_demo_synced : world :=
  match _folder_sync 2 ["s"] ["r"] "sync.log" w_demo with
  | Returned w' => w'
  | _ => w_demo
  end.

(** [fs_changed] with the replica's a.txt protected. *)
Definition w_changed_locked : world := mk_world fs_changed {[ ["r"; "a.txt"] ]}.

(** /s holds one file; the replica folder /s/r, inside the source folder,
    does not exist yet. *)
Definition fs_inside : fsmap :=
  list_to_map [ ([], Dir); (["s"], Dir); (["s"; "x"], File "xx" 1) ].


(** The replica folder holds entries the program does not look at: a
    directory named .git, a file b of the size and time of the source's b
    and of another content, and a directory c where the source has a file
    c. *)
Definition fs_unseen : fsmap :=
  list_to_map [ ([], Dir); (["s"], Dir); (["r"], Dir);
                (["s"; "a.txt"], File "alpha" 10);
                (["s"; "b"], File "new" 7);
                (["s"; "c"], File "text" 8);
                (["r"; ".git"], Dir);
                (["r"; ".git"; "config"], File "[core]" 3);
                (["r"; "b"], File "old" 7);
                (["r"; "c"], Dir);
                (["r"; "c"; "inner"], File "kept" 2) ].

Definition w_unseen : world := mk_world fs_unseen ∅.

(** [fs_unseen] after one run of the orchestrator from /s to /r. *)
Definition w_unseen_synced : world :=
  match _folder_sync 2 ["s"] ["r"] "sync.log" w_unseen with
  | Returned w' => w'
  | _ => w_unseen
  end.

(** A resolution of path texts for the examples: the text is one name under
    the root. *)
Definition name_under_root (text : string) : path := [text].

(** [w_demo] after a run of the script of [_folder_sync.py] with one
    argument too many. *)
Definition w_demo_warned : world :=
  match folder_sync_main name_under_root "_folder_sync.py" 2
          ["_folder_sync.py"; "s"; "r"; "sync.log"; "more"] w_demo with
  | Returned w' => w'
  | _ => w_demo
  end.


(** * Properties *)

(** ** Histories only grow, one event per library call *)

Lemma events_since_app w w' evs :
  history w' = history w ++ evs → events_since w w' = evs.
Proof.
  intros H. unfold events_since. rewrite H. by rewrite drop_app_length.
Qed.

Lemma history_custom_print log m w :
  history (_custom_print log m w) = history w ++ [Print m; LogAppend log (clock w) m].
Proof. simpl. by rewrite <- app_assoc. Qed.

Lemma os_remove_history p w :
  history (world_of (os_remove p w)) = history w ++ [Remove p].
Proof.
  unfold os_remove. simpl.
  destruct (files w !! p) as [[]|]; simpl; try done.
  by case_decide.
Qed.

Lemma shutil_rmtree_history p w :
  history (world_of (shutil_rmtree p w)) = history w ++ [RmTree p].
Proof.
  unfold shutil_rmtree. simpl.
  destruct (files w !! p) as [[]|]; simpl; try done.
  by destruct (elements _).
Qed.

Lemma shutil_copy2_history src dst w :
  history (world_of (shutil_copy2 src dst w)) = history w ++ [Copy2 src dst].
Proof.
  unfold shutil_copy2. simpl.
  destruct (files w !! src) as [[]|]; simpl; try done.
  case_decide; simpl; try done.
  destruct (files w !! copy2_target _ _ _) as [[]|]; simpl; try done;
    destruct (files w !! dirname _) as [[]|]; simpl; try done; by case_decide.
Qed.

Lemma shutil_copytree_history src dst ok w :
  history (world_of (shutil_copytree src dst ok w)) = history w ++ [CopyTree src dst].
Proof.
  unfold shutil_copytree. simpl.
  destruct (os_listdir _ _); simpl; try done.
  destruct (os_makedirs _ _ _ _); simpl; try done.
  by destruct (omap _ _).
Qed.

Lemma clock_os_remove p w : clock (world_of (os_remove p w)) = clock w.
Proof.
  unfold os_remove. simpl.
  destruct (files w !! p) as [[]|]; simpl; try done. by case_decide.
Qed.

Lemma clock_shutil_rmtree p w : clock (world_of (shutil_rmtree p w)) = clock w.
Proof.
  unfold shutil_rmtree. simpl.
  destruct (files w !! p) as [[]|]; simpl; try done. by destruct (elements _).
Qed.

Lemma clock_shutil_copy2 src dst w : clock (world_of (shutil_copy2 src dst w)) = clock w.
Proof.
  unfold shutil_copy2. simpl.
  destruct (files w !! src) as [[]|]; simpl; try done.
  case_decide; simpl; try done.
  destruct (files w !! copy2_target _ _ _) as [[]|]; simpl; try done;
    destruct (files w !! dirname _) as [[]|]; simpl; try done; by case_decide.
Qed.

Lemma clock_shutil_copytree src dst ok w :
  clock (world_of (shutil_copytree src dst ok w)) = clock w.
Proof.
  unfold shutil_copytree. simpl.
  destruct (os_listdir _ _); simpl; try done.
  destruct (os_makedirs _ _ _ _); simpl; try done.
  by destruct (omap _ _).
Qed.

(** ** One entry of the reconciler and of the purger *)

Lemma copy_attempt_history s r log n w :
  ∃ act op, (act, op) ∈ copy_announce s r n ∧
    history (world_of (copy_attempt s r log n w))
    = history w ++ [Print act; LogAppend log (clock w) act; op] ∧
    clock (world_of (copy_attempt s r log n w)) = S (clock w).
Proof.
  unfold copy_attempt, copy_announce.
  destruct (os_path_isdir _ _).
  - eexists _, _. split; [apply list_elem_of_here|].
    rewrite shutil_copytree_history, clock_shutil_copytree, history_custom_print.
    by rewrite <- app_assoc.
  - eexists _, _. split; [apply list_elem_of_further, list_elem_of_here|].
    rewrite shutil_copy2_history, clock_shutil_copy2, history_custom_print.
    by rewrite <- app_assoc.
Qed.

Lemma delete_attempt_history root log n w :
  ∃ act op, (act, op) ∈ delete_announce root n ∧
    history (world_of (delete_attempt root log n w))
    = history w ++ [Print act; LogAppend log (clock w) act; op] ∧
    clock (world_of (delete_attempt root log n w)) = S (clock w).
Proof.
  unfold delete_attempt, delete_announce.
  destruct (os_path_isdir _ _).
  - eexists _, _. split; [apply list_elem_of_here|].
    rewrite shutil_rmtree_history, clock_shutil_rmtree, history_custom_print.
    by rewrite <- app_assoc.
  - eexists _, _. split; [apply list_elem_of_further, list_elem_of_here|].
    rewrite os_remove_history, clock_os_remove, history_custom_print.
    by rewrite <- app_assoc.
Qed.

Lemma copy_entry_turn s r log b w n :
  ∃ evs ok, turn log (copy_announce s r n) (msg_copy_exn n) evs ok ∧
    history (copy_entry s r log (b, w) n).2 = history w ++ evs ∧
    (copy_entry s r log (b, w) n).1 = b && ok.
Proof.
  destruct (copy_attempt_history s r log n w) as (act & op & Hin & Hh & Hc).
  unfold copy_entry. simpl.
  destruct (copy_attempt s r log n w) as [[] w'|e w']; simpl in *.
  - eexists _, true. split; [by apply turn_done|]. by rewrite andb_true_r.
  - eexists _, false. split; [by apply (turn_failed _ _ _ act op (clock w) e (clock w'))|].
    rewrite andb_false_r, <- app_assoc, Hh, <- app_assoc. done.
Qed.

Lemma delete_entry_turn root log b w n :
  ∃ evs ok, turn log (delete_announce root n) (msg_delete_exn n) evs ok ∧
    history (delete_entry root log (b, w) n).2 = history w ++ evs ∧
    (delete_entry root log (b, w) n).1 = b && ok.
Proof.
  destruct (delete_attempt_history root log n w) as (act & op & Hin & Hh & Hc).
  unfold delete_entry. simpl.
  destruct (delete_attempt root log n w) as [[] w'|e w']; simpl in *.
  - eexists _, true. split; [by apply turn_done|]. by rewrite andb_true_r.
  - eexists _, false. split; [by apply (turn_failed _ _ _ act op (clock w) e (clock w'))|].
    rewrite andb_false_r, <- app_assoc, Hh, <- app_assoc. done.
Qed.

(** A loop of turns: every name gets its turn, whatever happened before. *)
Lemma fold_turns (log : string) (announce : string → list (string * event))
    (exn_line : string → exn → string) (step : bool * world → string → bool * world) :
  (∀ b w n, ∃ evs ok, turn log (announce n) (exn_line n) evs ok ∧
      history (step (b, w) n).2 = history w ++ evs ∧ (step (b, w) n).1 = b && ok) →
  ∀ names b w,
  ∃ turns : list (list event * bool),
    Forall2 (λ n t, turn log (announce n) (exn_line n) t.1 t.2) names turns ∧
    history (fold_left step names (b, w)).2 = history w ++ concat turns.*1 ∧
    (fold_left step names (b, w)).1 = b && forallb id turns.*2.
Proof.
  intros Hstep names. induction names as [|n names IH]; intros b w.
  - exists []. simpl. by rewrite app_nil_r, andb_true_r.
  - destruct (Hstep b w n) as (evs & ok & Ht & Hh & Hb).
    simpl. destruct (step (b, w) n) as [b1 w1] eqn:E. simpl in *.
    destruct (IH b1 w1) as (turns & HF & Hh' & Hb').
    exists ((evs, ok) :: turns). split; [by constructor|].
    simpl. rewrite Hh', Hb', Hh, Hb, <- app_assoc.
    split; [done|]. by rewrite andb_assoc.
Qed.


(** Every name of the list gets its turn, in order. *)
Lemma reconciler_turns s r names log w :
  ∃ turns : list (list event * bool),
    Forall2 (λ n t, turn log (copy_announce s r n) (msg_copy_exn n) t.1 t.2) names turns ∧
    history (_copy_new_modified_files s r names log w).2 = history w ++ concat turns.*1.
Proof.
  destruct (fold_turns log (copy_announce s r) msg_copy_exn (copy_entry s r log)
              (copy_entry_turn s r log) names true w) as (turns & HF & Hh & Hb).
  by exists turns.
Qed.

Lemma purger_turns r names log w :
  ∃ turns : list (list event * bool),
    Forall2 (λ n t, turn log (delete_announce r n) (msg_delete_exn n) t.1 t.2) names turns ∧
    history (_delete_locations r names log w).2 = history w ++ concat turns.*1.
Proof.
  destruct (fold_turns log (delete_announce r) msg_delete_exn (delete_entry r log)
              (delete_entry_turn r log) names true w) as (turns & HF & Hh & Hb).
  by exists turns.
Qed.



(** C10.  The action line precedes the action.  For one entry of the
    reconciler, and of the purger, the "Copying ..." (resp. "Deleting ...")
    line is printed and logged before the library call is made.  When the
    call succeeds nothing follows; when it fails, the exception line follows
    the action line and the call, and the returned value is [false].  The
    action line is there in both cases. *)
Theorem action_line_precedes_action (s r : path) (log : string) (b : bool)
    (w : world) (n : string) :
  (∃ act op, (act, op) ∈ copy_announce s r n ∧
     match copy_attempt s r log n w with
     | Ok _ w' =>
         copy_entry s r log (b, w) n = (b, w') ∧
         history w' = history w ++ [Print act; LogAppend log (clock w) act; op]
     | Err e w' =>
         (copy_entry s r log (b, w) n).1 = false ∧
         history (copy_entry s r log (b, w) n).2
         = history w ++ [Print act; LogAppend log (clock w) act; op;
                         Print (msg_copy_exn n e);
                         LogAppend log (S (clock w)) (msg_copy_exn n e)]
     end) ∧
  (∃ act op, (act, op) ∈ delete_announce r n ∧
     match delete_attempt r log n w with
     | Ok _ w' =>
         delete_entry r log (b, w) n = (b, w') ∧
         history w' = history w ++ [Print act; LogAppend log (clock w) act; op]
     | Err e w' =>
         (delete_entry r log (b, w) n).1 = false ∧
         history (delete_entry r log (b, w) n).2
         = history w ++ [Print act; LogAppend log (clock w) act; op;
                         Print (msg_delete_exn n e);
                         LogAppend log (S (clock w)) (msg_delete_exn n e)]
     end).
Proof.
  split.
  - destruct (copy_attempt_history s r log n w) as (act & op & Hin & Hh & Hc).
    exists act, op. split; [done|]. unfold copy_entry. simpl.
    destruct (copy_attempt s r log n w) as [[] w'|e w']; simpl in *; [done|].
    split; [done|]. rewrite Hc, <- app_assoc, Hh, <- app_assoc. done.
  - destruct (delete_attempt_history r log n w) as (act & op & Hin & Hh & Hc).
    exists act, op. split; [done|]. unfold delete_entry. simpl.
    destruct (delete_attempt r log n w) as [[] w'|e w']; simpl in *; [done|].
    split; [done|]. rewrite Hc, <- app_assoc, Hh, <- app_assoc. done.
Qed.

(** ** The orchestrator, one level *)

Lemma exists_false_lookup (fs : fsmap) p :
  fs !! p = None → os_path_exists fs p = false.
Proof.
  intros H. unfold os_path_exists. apply bool_decide_eq_false. rewrite H.
  by intros [? ?].
Qed.

Lemma exists_true_lookup (fs : fsmap) p :
  os_path_exists fs p = true ↔ is_Some (fs !! p).
Proof. unfold os_path_exists. apply bool_decide_eq_true. Qed.

Lemma isdir_true_lookup (fs : fsmap) p :
  os_path_isdir fs p = true ↔ fs !! p = Some Dir.
Proof. unfold os_path_isdir. apply bool_decide_eq_true. Qed.

(** Unfolding of one level whose two folders exist and were compared. *)
Lemma folder_sync_level fuel s r log w cmp :
  os_path_exists (files w) s = true →
  os_path_exists (files w) r = true →
  filecmp_dircmp (files w) s r = inr cmp →
  _folder_sync (S fuel) s r log w =
    let rec := _copy_new_modified_files s r (left_only cmp ++ diff_files cmp) log w in
    if negb rec.1 then Returned rec.2
    else
      let pur := _delete_locations r (right_only cmp) log rec.2 in
      if negb pur.1 then Returned pur.2
      else for_each (λ n, _folder_sync fuel (s ++ [n]) (r ++ [n]) log)
                    (common_dirs cmp) pur.2.
Proof.
  intros Hs Hr Hc. simpl. rewrite Hs, Hr, Hc. simpl.
  destruct (_copy_new_modified_files _ _ _ _ _) as [b1 w1]. simpl.
  destruct b1; simpl; [|done].
  destruct (_delete_locations _ _ _ _) as [b2 w2]. simpl.
  by destruct b2.
Qed.

Lemma turn_no_delete log s r n evs ok :
  turn log (copy_announce s r n) (msg_copy_exn n) evs ok →
  Forall (λ e, ∀ p, e ≠ RmTree p ∧ e ≠ Remove p) evs.
Proof.
  intros Ht. destruct Ht as [act op t Hin|act op t e t' Hin];
    unfold copy_announce in Hin;
    apply elem_of_cons in Hin as [Hin|Hin];
    try (apply elem_of_cons in Hin as [Hin|Hin]; [|by apply elem_of_nil in Hin]);
    injection Hin as -> ->; repeat constructor; done.
Qed.

Lemma reconciler_never_deletes s r names log w :
  Forall (λ e, ∀ p, e ≠ RmTree p ∧ e ≠ Remove p)
         (events_since w (_copy_new_modified_files s r names log w).2).
Proof.
  destruct (reconciler_turns s r names log w) as (turns & HF & Hh).
  rewrite (events_since_app _ _ _ Hh).
  apply Forall_concat, Forall_fmap.
  clear Hh. induction HF as [|n t names turns Ht HF IH]; constructor; [|done].
  simpl. by eapply turn_no_delete.
Qed.

(** C5.  A missing source is fatal.  When the source path does not exist,
    the call writes the "EXCEPTION: ..." line to the log, as its only
    effect, and then raises [FileNotFoundError]; the file system, hence the
    replica, is what it was. *)
Theorem missing_source_is_fatal (fuel : nat) (s r : path) (log : string) (w : world) :
  files w !! s = None →
  ∃ w', _folder_sync (S fuel) s r log w = Raised (FileNotFoundError (msg_no_source s)) w' ∧
        history w' = history w ++ [LogAppend log (clock w) ("EXCEPTION: " +:+ msg_no_source s)] ∧
        files w' = files w.
Proof.
  intros Hs. eexists. simpl. rewrite (exists_false_lookup _ _ Hs). simpl.
  split; [reflexivity|]. done.
Qed.

Lemma missing_source_is_fatal_witness :
  ∃ w', _folder_sync 1 ["nowhere"] ["r"] "sync.log" (mk_world fs_demo ∅)
        = Raised (FileNotFoundError (msg_no_source ["nowhere"])) w' ∧
        history w' = [LogAppend "sync.log" 0 ("EXCEPTION: " +:+ msg_no_source ["nowhere"])] ∧
        files w' = fs_demo.
Proof.
  apply (missing_source_is_fatal 0 ["nowhere"] ["r"] "sync.log" (mk_world fs_demo ∅)).
  vm_compute. reflexivity.
Defined.

(** C3.  Stop on failure.  On a pair of existing folders that could be
    compared: when the reconciler reports a failure, the call returns in the
    world the reconciler left, so nothing is deleted and nothing below is
    visited (one unit of fuel is enough, and a recursive call would use
    more); when the reconciler succeeds and the purger reports a failure,
    the call returns in the world the purger left. *)
Theorem stop_on_failure (fuel : nat) (s r : path) (log : string) (w : world) (cmp : dircmp) :
  os_path_exists (files w) s = true →
  os_path_exists (files w) r = true →
  filecmp_dircmp (files w) s r = inr cmp →
  let rec := _copy_new_modified_files s r (left_only cmp ++ diff_files cmp) log w in
  let pur := _delete_locations r (right_only cmp) log rec.2 in
  (rec.1 = false →
     _folder_sync (S fuel) s r log w = Returned rec.2 ∧
     Forall (λ e, ∀ p, e ≠ RmTree p ∧ e ≠ Remove p) (events_since w rec.2)) ∧
  (rec.1 = true → pur.1 = false →
     _folder_sync (S fuel) s r log w = Returned pur.2).
Proof.
  intros Hs Hr Hc. cbv zeta. rewrite (folder_sync_level _ _ _ _ _ _ Hs Hr Hc).
  cbv zeta. split.
  - intros H. rewrite H. split; [done|]. apply reconciler_never_deletes.
  - intros H1 H2. rewrite H1, H2. done.
Qed.

Lemma stop_on_failure_witness :
  _folder_sync 1 ["s"] ["r"] "sync.log" w_locked
  = Returned (_copy_new_modified_files ["s"] ["r"]
                (left_only cmp_demo ++ diff_files cmp_demo) "sync.log" w_locked).2 ∧
  Forall (λ e, ∀ p, e ≠ RmTree p ∧ e ≠ Remove p)
    (events_since w_locked
       (_copy_new_modified_files ["s"] ["r"]
          (left_only cmp_demo ++ diff_files cmp_demo) "sync.log" w_locked).2).
Proof.
  apply (stop_on_failure 0 ["s"] ["r"] "sync.log" w_locked cmp_demo);
    vm_compute; reflexivity.
Defined.




(** ** Console and log file *)

Lemma console_of_app a b : console_of (a ++ b) = console_of a ++ console_of b.
Proof. apply omap_app. Qed.

Lemma log_of_app a b : log_of (a ++ b) = log_of a ++ log_of b.
Proof. apply omap_app. Qed.

Lemma parity_refl w : parity w [] w.
Proof. exists []. by rewrite !app_nil_r. Qed.

Lemma parity_trans w1 w2 w3 extra :
  parity w1 [] w2 → parity w2 extra w3 → parity w1 extra w3.
Proof.
  intros (e1 & H1 & P1) (e2 & H2 & P2). exists (e1 ++ e2).
  rewrite H2, H1, <- app_assoc. split; [done|].
  rewrite log_of_app, console_of_app, P1, P2, app_nil_r, <- app_assoc. done.
Qed.

Lemma turn_parity log announce exn_line evs ok :
  (∀ act op, (act, op) ∈ announce → is_Some (target op)) →
  turn log announce exn_line evs ok → log_of evs = console_of evs.
Proof.
  intros Hop Ht.
  destruct Ht as [act op t Hin|act op t e t' Hin];
    destruct (Hop _ _ Hin) as [tg Htg]; destruct op; try discriminate; done.
Qed.

Lemma copy_announce_target s r n act op :
  (act, op) ∈ copy_announce s r n → target op = Some (r ++ [n]).
Proof.
  unfold copy_announce. intros Hin.
  apply elem_of_cons in Hin as [Hin|Hin];
    try (apply elem_of_cons in Hin as [Hin|Hin]; [|by apply elem_of_nil in Hin]);
    by injection Hin as -> ->.
Qed.

Lemma delete_announce_target r n act op :
  (act, op) ∈ delete_announce r n → target op = Some (r ++ [n]).
Proof.
  unfold delete_announce. intros Hin.
  apply elem_of_cons in Hin as [Hin|Hin];
    try (apply elem_of_cons in Hin as [Hin|Hin]; [|by apply elem_of_nil in Hin]);
    by injection Hin as -> ->.
Qed.

Lemma turns_parity log (announce : string → list (string * event)) exn_line
    names (turns : list (list event * bool)) :
  (∀ n act op, (act, op) ∈ announce n → is_Some (target op)) →
  Forall2 (λ n t, turn log (announce n) (exn_line n) t.1 t.2) names turns →
  log_of (concat turns.*1) = console_of (concat turns.*1).
Proof.
  intros Hop HF. induction HF as [|n t names turns Ht HF IH]; [done|].
  rewrite fmap_cons. change (concat (t.1 :: turns.*1)) with (t.1 ++ concat turns.*1).
  rewrite log_of_app, console_of_app, IH.
  f_equal. eapply turn_parity; [|done]. intros act op. apply Hop.
Qed.

Lemma reconciler_parity s r names log w :
  parity w [] (_copy_new_modified_files s r names log w).2.
Proof.
  destruct (reconciler_turns s r names log w) as (turns & HF & Hh).
  exists (concat turns.*1). split; [done|]. rewrite app_nil_r.
  eapply turns_parity; [|done]. intros n act op Hin.
  rewrite (copy_announce_target _ _ _ _ _ Hin). by eexists.
Qed.

Lemma purger_parity r names log w :
  parity w [] (_delete_locations r names log w).2.
Proof.
  destruct (purger_turns r names log w) as (turns & HF & Hh).
  exists (concat turns.*1). split; [done|]. rewrite app_nil_r.
  eapply turns_parity; [|done]. intros n act op Hin.
  rewrite (delete_announce_target _ _ _ _ Hin). by eexists.
Qed.

Lemma custom_print_parity log m w : parity w [] (_custom_print log m w).
Proof. eexists. split; [apply history_custom_print|done]. Qed.

Lemma copytree_parity src dst ok w :
  parity w [] (world_of (shutil_copytree src dst ok w)).
Proof. eexists. split; [apply shutil_copytree_history|done]. Qed.

Lemma makedirs_not_missing_source prot ok base rest fs e :
  os_makedirs_from prot ok base rest fs = inl e → is_missing_source e = false.
Proof.
  revert base fs. induction rest as [|n rest IH]; intros base fs; simpl; [done|].
  destruct (fs !! (base ++ [n])) as [[]|].
  - intros [= <-]. by destruct rest.
  - destruct rest; [|apply IH]. destruct ok; [done|]. by intros [= <-].
  - case_decide; [by intros [= <-]|apply IH].
Qed.

Lemma listdir_not_missing_source fs p e :
  os_listdir fs p = inl e → is_missing_source e = false.
Proof.
  unfold os_listdir. destruct (fs !! p) as [[]|]; try done; by intros [= <-].
Qed.

Lemma copytree_not_missing_source src dst ok w e w' :
  shutil_copytree src dst ok w = Err e w' → is_missing_source e = false.
Proof.
  unfold shutil_copytree. simpl.
  destruct (os_listdir _ _) as [e1|l] eqn:E1.
  { intros [= <- _]. by eapply listdir_not_missing_source. }
  destruct (os_makedirs _ _ _ _) as [e2|fs1] eqn:E2.
  { intros [= <- _]. by eapply makedirs_not_missing_source. }
  destruct (omap _ _); [done|]. by intros [= <- _].
Qed.

Lemma dircmp_not_missing_source fs a b e :
  filecmp_dircmp fs a b = inl e → is_missing_source e = false.
Proof.
  unfold filecmp_dircmp.
  destruct (os_listdir fs a) as [e1|la] eqn:E1.
  { intros [= <-]. by eapply listdir_not_missing_source. }
  destruct (os_listdir fs b) as [e2|lb] eqn:E2; [|done].
  intros [= <-]. by eapply listdir_not_missing_source.
Qed.

Lemma for_each_parity body names w :
  (∀ x w, parity_outcome w (body x w)) → parity_outcome w (for_each body names w).
Proof.
  intros Hbody. revert w. induction names as [|x names IH]; intros w; simpl.
  - apply parity_refl.
  - specialize (Hbody x w). destruct (body x w) as [w1|e w1|]; [|done|done].
    specialize (IH w1). unfold parity_outcome in *.
    destruct (final (for_each body names w1)) as [w2|] eqn:E; [|done].
    eapply parity_trans; [exact Hbody|exact IH].
Qed.

Lemma folder_sync_parity fuel s r log w :
  parity_outcome w (_folder_sync fuel s r log w).
Proof.
  revert s r w. induction fuel as [|fuel IH]; intros s r w; [done|].
  simpl. destruct (os_path_exists (files w) s); simpl.
  2:{ unfold parity_outcome, parity. simpl. eexists. split; [done|]. done. }
  destruct (os_path_exists (files w) r); simpl.
  2:{ pose proof (copytree_parity s r false (_custom_print log (msg_no_replica s r) w)) as Hp.
      pose proof (custom_print_parity log (msg_no_replica s r) w) as Hq.
      destruct (shutil_copytree _ _ _ _) as [[] w'|e w'] eqn:E; unfold parity_outcome; simpl in *.
      - eapply parity_trans; eauto.
      - rewrite (copytree_not_missing_source _ _ _ _ _ _ E). eapply parity_trans; eauto. }
  destruct (filecmp_dircmp _ _ _) as [e|cmp] eqn:Hc.
  { unfold parity_outcome. simpl.
    rewrite (dircmp_not_missing_source _ _ _ _ Hc). apply parity_refl. }
  pose proof (reconciler_parity s r (left_only cmp ++ diff_files cmp) log w) as Hrec.
  destruct (_copy_new_modified_files _ _ _ _ _) as [b1 w1]. simpl in *.
  destruct b1; simpl; [|exact Hrec].
  pose proof (purger_parity r (right_only cmp) log w1) as Hpur.
  destruct (_delete_locations _ _ _ _) as [b2 w2]. simpl in *.
  destruct b2; simpl; [|by eapply parity_trans].
  pose proof (for_each_parity (λ n, _folder_sync fuel (s ++ [n]) (r ++ [n]) log)
                (common_dirs cmp) w2 (λ x w, IH _ _ w)) as Hloop.
  unfold parity_outcome in *.
  destruct (for_each _ _ _) as [w3|e w3|]; simpl in *; [| |done].
  - eapply parity_trans; [|exact Hloop]. by eapply parity_trans.
  - eapply parity_trans; [|exact Hloop]. by eapply parity_trans.
Qed.

(** C8, as the code has it.  Whatever a call of the orchestrator printed, it
    also appended to the log file, in the same order and with the same text;
    the reverse holds but for one line: when the call ends with the
    exception for a missing source folder, the log file has received the
    line "EXCEPTION: ..." after all the others, and the console has not. *)
Theorem console_log_parity (fuel : nat) (s r : path) (log : string) (w : world) :
  match _folder_sync fuel s r log w with
  | Returned w' =>
      log_of (events_since w w') = console_of (events_since w w')
  | Raised e w' =>
      log_of (events_since w w')
      = console_of (events_since w w')
        ++ (if is_missing_source e then ["EXCEPTION: " +:+ show_exn e] else [])
  | OutOfFuel => True
  end.
Proof.
  pose proof (folder_sync_parity fuel s r log w) as H. unfold parity_outcome in H.
  destruct (_folder_sync fuel s r log w) as [w'|e w'|]; simpl in H; [| |done].
  - destruct H as (evs & Hh & Hp). rewrite (events_since_app _ _ _ Hh), Hp.
    by rewrite app_nil_r.
  - destruct H as (evs & Hh & Hp). by rewrite (events_since_app _ _ _ Hh), Hp.
Qed.

(** C8, as stated, fails on the fatal message: the run on a missing source
    appends the line to the log file and prints nothing. *)
Lemma fatal_message_is_not_printed :
  ∃ w', _folder_sync 1 ["nowhere"] ["r"] "sync.log" (mk_world fs_demo ∅)
        = Raised (FileNotFoundError (msg_no_source ["nowhere"])) w' ∧
        log_of (history w')
        = ["EXCEPTION: Could not find the source folder at the provided path: /nowhere"] ∧
        console_of (history w') = [] ∧
        console_of (history w') ≠ log_of (history w').
Proof. eexists. split; [vm_compute; reflexivity|]. vm_compute. done. Qed.

(** ** The scheduler script *)

(** C9, at the failing input.  Called with the mode "add", the script adds
    the job to the crontab and then ends with the [ValueError] for an invalid
    mode; with "del" it ends the same way. *)
Theorem main_raises_after_add_and_del :
  let env := MainEnv "main.py" "/opt/sync" false in
  let cmd := "cd /opt/sync;python /opt/sync/folder_sync/_folder_sync.py /s /r /sync.log" in
  main env ["main.py"; "/s"; "/r"; "5"; "/sync.log"; "add"] (CronWorld [] [])
  = Failed (ValueError (msg_invalid_mode "add"))
      (CronWorld [Job cmd (Some "5")]
         ["Cron job " +:+ cmd +:+ " added with frequency every 5 minutes!"]) ∧
  main env ["main.py"; "/s"; "/r"; "5"; "/sync.log"; "del"]
       (CronWorld [Job cmd (Some "5")] [])
  = Failed (ValueError (msg_invalid_mode "del"))
      (CronWorld [] ["Cron job(s) with command " +:+ cmd +:+ " removed."]).
Proof. split; vm_compute; reflexivity. Qed.

(** The script never runs off its last line. *)
Lemma main_always_fails env argv c : ∃ e c', main env argv c = Failed e c'.
Proof.
  unfold main. case_decide; [by eauto|]. cbv zeta. case_decide; [|by eauto].
  destruct (add_job_to_crontab _ _ _); eauto.
Qed.

(** ** Paths *)

Lemma strip_spec p k q : strip p k = Some q ↔ k = p ++ q.
Proof.
  revert k. induction p as [|a p IH]; intros k; simpl.
  - split; [by intros [= ->]|by intros ->].
  - destruct k as [|b k]; [done|].
    case_decide as Hab.
    + subst b. rewrite IH. split; [by intros ->|by intros [= ->]].
    + split; [done|]. intros [= -> _]. done.
Qed.

Lemma strip_app p q : strip p (p ++ q) = Some q.
Proof. by apply strip_spec. Qed.

Lemma prefix_snoc_inv (p t : path) n :
  p `prefix_of` t ++ [n] → p = t ++ [n] ∨ p `prefix_of` t.
Proof.
  intros [k Hk]. destruct (decide (k = [])) as [->|Hne].
  - left. by rewrite app_nil_r in Hk.
  - right. destruct (exists_last Hne) as (k' & x & ->).
    rewrite app_assoc in Hk. apply app_inj_tail in Hk as [-> _]. by exists k'.
Qed.

Lemma child_prefix_inv (r : path) n m q :
  r ++ [n] `prefix_of` r ++ m :: q → n = m.
Proof.
  intros [k Hk]. rewrite <- !app_assoc in Hk. apply app_inv_head in Hk.
  by injection Hk.
Qed.

Lemma apart_not_below s r q : apart s r → ¬ r `prefix_of` s ++ q.
Proof.
  intros [H1 H2] Hp.
  destruct (prefix_weak_total r s (s ++ q)) as [?|?]; try done.
  by apply prefix_app_r.
Qed.

Lemma apart_not_above s r q : apart s r → ¬ s ++ q `prefix_of` r.
Proof.
  intros [H1 H2] Hp. apply H1. etrans; [|exact Hp]. by apply prefix_app_r.
Qed.

Lemma apart_child s r n : apart s r → apart (s ++ [n]) (r ++ [n]).
Proof.
  intros [H1 H2]. split; intros Hp.
  - apply prefix_snoc_inv in Hp as [Hp|Hp].
    + apply app_inj_tail in Hp as [-> _]. by apply H1.
    + apply H1. etrans; [|exact Hp]. by apply prefix_app_r.
  - apply prefix_snoc_inv in Hp as [Hp|Hp].
    + apply app_inj_tail in Hp as [-> _]. by apply H1.
    + apply H2. etrans; [|exact Hp]. by apply prefix_app_r.
Qed.

(** ** Frames *)

Lemma within_refl t fs : within t fs fs.
Proof. intros p. by left. Qed.

Lemma confined_refl r fs : confined r fs fs.
Proof. intros p. by left. Qed.

Lemma confined_trans r fs1 fs2 fs3 :
  confined r fs1 fs2 → confined r fs2 fs3 → confined r fs1 fs3.
Proof.
  intros H1 H2 p.
  destruct (H1 p) as [E1|[?|(Hp & N1 & D1)]]; [|by right; left|];
    (destruct (H2 p) as [E2|[?|(Hp' & N2 & D2)]]; [|by right; left|]).
  - left. congruence.
  - right; right. rewrite <- E1. done.
  - right; right. rewrite E2. done.
  - congruence.
Qed.

Lemma within_child_confined r n fs fs' :
  within (r ++ [n]) fs fs' → confined r fs fs'.
Proof.
  intros H p. destruct (H p) as [E|[[q ->]|(Hp & N & D)]]; [by left| |].
  - right; left. exists n, q. by rewrite <- app_assoc.
  - apply prefix_snoc_inv in Hp as [->|Hp].
    + right; left. exists n, []. done.
    + by right; right.
Qed.

Lemma confined_within r fs fs' : confined r fs fs' → within r fs fs'.
Proof.
  intros H p. destruct (H p) as [E|[(n & q & ->)|?]]; [by left| |by right; right].
  right; left. by apply prefix_app_r.
Qed.

Lemma confined_child r n fs fs' :
  confined (r ++ [n]) fs fs' → confined r fs fs'.
Proof. intros H. apply (within_child_confined r n). by apply confined_within. Qed.

(** Entries that are neither below [r] nor above it are left alone. *)
Lemma within_elsewhere t fs fs' p :
  within t fs fs' → ¬ t `prefix_of` p → ¬ p `prefix_of` t → fs' !! p = fs !! p.
Proof. intros H H1 H2. destruct (H p) as [?|[?|(? & _)]]; done. Qed.

Lemma confined_source s r fs fs' q :
  confined r fs fs' → apart s r → fs' !! (s ++ q) = fs !! (s ++ q).
Proof.
  intros H Ha. apply confined_within in H.
  apply (within_elsewhere r); [done| |].
  - by apply apart_not_below.
  - by apply apart_not_above.
Qed.

(** *** The library calls *)

Lemma os_remove_within p w : within p (files w) (files (world_of (os_remove p w))).
Proof.
  unfold os_remove. simpl.
  destruct (files w !! p) as [[]|]; simpl; try apply within_refl.
  case_decide; simpl; [apply within_refl|].
  intros k. destruct (decide (p = k)) as [->|Hne]; [by right; left|].
  left. by apply lookup_delete_ne.
Qed.

Lemma shutil_rmtree_within p w :
  within p (files w) (files (world_of (shutil_rmtree p w))).
Proof.
  unfold shutil_rmtree. simpl.
  destruct (files w !! p) as [[]|]; simpl; try apply within_refl.
  destruct (elements _); simpl; [|apply within_refl].
  intros k. destruct (decide (p `prefix_of` k)) as [Hp|Hp]; [by right; left|].
  left. rewrite map_lookup_filter. destruct (files w !! k) as [e|]; [|done].
  simpl. by rewrite option_guard_True.
Qed.

Lemma copy2_target_below fs src dst : dst `prefix_of` copy2_target fs src dst.
Proof.
  unfold copy2_target. destruct (os_path_isdir fs dst); [by apply prefix_app_r|done].
Qed.

Lemma shutil_copy2_within src dst w :
  within dst (files w) (files (world_of (shutil_copy2 src dst w))).
Proof.
  unfold shutil_copy2. simpl.
  destruct (files w !! src) as [[]|]; simpl; try apply within_refl.
  case_decide; simpl; [apply within_refl|].
  assert (Hin : ∀ d m, within dst (files w)
            (<[copy2_target (files w) src dst := File d m]> (files w))).
  { intros d m k.
    destruct (decide (copy2_target (files w) src dst = k)) as [<-|Hne].
    - right; left. apply copy2_target_below.
    - left. by apply lookup_insert_ne. }
  destruct (files w !! copy2_target _ _ _) as [[]|]; simpl; try apply within_refl;
    destruct (files w !! dirname _) as [[]|]; simpl; try apply within_refl;
    case_decide; simpl; try apply within_refl; apply Hin.
Qed.

(** [os.makedirs] only creates directories, on the way to its argument. *)
Lemma makedirs_from_frame prot ok base rest fs fs1 :
  os_makedirs_from prot ok base rest fs = inr fs1 →
  ∀ p, fs1 !! p = fs !! p
       ∨ (p `prefix_of` base ++ rest ∧ fs !! p = None ∧ fs1 !! p = Some Dir).
Proof.
  revert base fs. induction rest as [|n rest IH]; intros base fs; simpl.
  - intros [= <-] p. by left.
  - destruct (fs !! (base ++ [n])) as [[]|] eqn:E; [done| |].
    + destruct rest as [|n' rest]; [destruct ok; [|done]; intros [= <-] p; by left|].
      intros H p. destruct (IH _ _ H p) as [?|(Hp & ? & ?)]; [by left|].
      right. by rewrite <- app_assoc in Hp.
    + case_decide; [done|]. intros Hm p.
      destruct (IH _ _ Hm p) as [Hu|(Hp & Hn & Hd)].
      * destruct (decide (base ++ [n] = p)) as [<-|Hne].
        -- right. rewrite Hu, lookup_insert_eq. split; [|done].
           exists rest. by rewrite <- app_assoc.
        -- left. rewrite Hu. by apply lookup_insert_ne.
      * rewrite <- app_assoc in Hp.
        destruct (decide (base ++ [n] = p)) as [<-|Hne].
        -- by rewrite lookup_insert_eq in Hn.
        -- right. rewrite lookup_insert_ne in Hn by done. done.
Qed.

Lemma makedirs_from_leaf prot ok base rest fs fs1 :
  os_makedirs_from prot ok base rest fs = inr fs1 → rest ≠ [] →
  fs1 !! (base ++ rest) = Some Dir.
Proof.
  revert base fs. induction rest as [|n rest IH]; intros base fs; simpl; [done|].
  intros Hm _. destruct (fs !! (base ++ [n])) as [[]|] eqn:E; [done| |].
  - destruct rest as [|n' rest].
    + destruct ok; [|done]. by injection Hm as <-.
    + rewrite cons_middle, app_assoc. by eapply IH.
  - case_decide; [done|]. destruct rest as [|n' rest].
    + simpl in Hm. injection Hm as <-. by rewrite lookup_insert_eq.
    + rewrite cons_middle, app_assoc. by eapply IH.
Qed.

Lemma below_spec fs src q e :
  (q, e) ∈ below fs src ↔ q ≠ [] ∧ fs !! (src ++ q) = Some e.
Proof.
  unfold below. rewrite list_elem_of_omap. split.
  - intros ([k e'] & Hin & Hk). apply elem_of_map_to_list in Hin. simpl in Hk.
    destruct (strip src k) as [[|n q']|] eqn:E; try done.
    injection Hk as <- <-. apply strip_spec in E as ->. done.
  - intros [Hne Hl]. exists (src ++ q, e). split; [by apply elem_of_map_to_list|].
    simpl. rewrite strip_app. by destruct q.
Qed.

Lemma copy_plan_below prot ok fs src dst qe te :
  copy_plan prot ok fs src dst qe = Some te → qe.1 ≠ [] →
  ∃ n q, te.1 = dst ++ n :: q.
Proof.
  unfold copy_plan. destruct (blocked _ _ _ _ _ _); [done|].
  destruct qe as [[|n q] e]; [done|]. simpl. intros H _.
  destruct e as [d m|]; injection H as <-; simpl; [|by eauto].
  unfold copy2_target. destruct (os_path_isdir _ _); [|by eauto].
  exists n, (q ++ [basename (src ++ n :: q)]).
  by rewrite <- app_assoc.
Qed.

Lemma copytree_plan_keys prot ok fs src dst p :
  (¬ ∃ n q, p = dst ++ n :: q) →
  (list_to_map (omap (copy_plan prot ok fs src dst) (below fs src)) : fsmap) !! p = None.
Proof.
  intros Hp. apply not_elem_of_list_to_map_1. intros Hin.
  apply list_elem_of_fmap in Hin as ([k e] & -> & Hin).
  apply list_elem_of_omap in Hin as ([q e'] & Hq & Hplan).
  apply below_spec in Hq as [Hne _].
  destruct (copy_plan_below _ _ _ _ _ _ _ Hplan Hne) as (n & q' & Hk).
  apply Hp. by exists n, q'.
Qed.

Lemma below_or_not (r p : path) :
  (∃ n q, p = r ++ n :: q) ∨ ¬ (∃ n q, p = r ++ n :: q).
Proof.
  destruct (strip r p) as [[|n q]|] eqn:E.
  - right. intros (n & q & ->). by rewrite strip_app in E.
  - left. apply strip_spec in E. eauto.
  - right. intros (n & q & ->). by rewrite strip_app in E.
Qed.

Lemma shutil_copytree_confined src dst ok w :
  confined dst (files w) (files (world_of (shutil_copytree src dst ok w))).
Proof.
  unfold shutil_copytree. simpl.
  destruct (os_listdir _ _); simpl; [apply confined_refl|].
  destruct (os_makedirs _ _ _ _) as [e|fs1] eqn:E; simpl; [apply confined_refl|].
  assert (Hc : confined dst (files w)
            (list_to_map (omap (copy_plan (protected w) ok (files w) src dst)
                            (below (files w) src)) ∪ fs1)).
  { intros p. destruct (below_or_not dst p) as [Hb|Hb]; [by right; left|].
    rewrite lookup_union_r by (by apply copytree_plan_keys).
    destruct (makedirs_from_frame _ _ _ _ _ _ E p) as [?|?]; [by left|by right; right]. }
  match goal with
  | |- context [match ?x with [] => _ | _ :: _ => _ end] => by destruct x
  end.
Qed.

(** *** The reconciler and the purger *)

Lemma within_names_refl r names fs : within_names r names fs fs.
Proof. intros p. by left. Qed.

Lemma within_to_names r n fs fs' :
  within (r ++ [n]) fs fs' → within_names r [n] fs fs'.
Proof.
  intros H p. destruct (H p) as [E|[Hp|(Hp & N & D)]]; [by left| |].
  - right; left. exists n. split; [apply list_elem_of_here|done].
  - apply prefix_snoc_inv in Hp as [->|Hp].
    + right; left. exists n. split; [apply list_elem_of_here|done].
    + by right; right.
Qed.

Lemma within_names_trans r l1 l2 fs1 fs2 fs3 :
  within_names r l1 fs1 fs2 → within_names r l2 fs2 fs3 →
  within_names r (l1 ++ l2) fs1 fs3.
Proof.
  intros H1 H2 p.
  destruct (H1 p) as [E1|[(n & Hn & Hp)|(Hp & N1 & D1)]].
  - destruct (H2 p) as [E2|[(n & Hn & Hp)|(Hp & N2 & D2)]].
    + left. congruence.
    + right; left. exists n. split; [|done]. apply elem_of_app. by right.
    + right; right. by rewrite <- E1.
  - right; left. exists n. split; [|done]. apply elem_of_app. by left.
  - destruct (H2 p) as [E2|[(n & Hn & Hp')|(Hp' & N2 & D2)]].
    + right; right. by rewrite E2.
    + right; left. exists n. split; [|done]. apply elem_of_app. by right.
    + congruence.
Qed.

Lemma within_names_confined r names fs fs' :
  within_names r names fs fs' → confined r fs fs'.
Proof.
  intros H p. destruct (H p) as [E|[(n & Hn & [q ->])|?]]; [by left| |by right; right].
  right; left. exists n, q. by rewrite <- app_assoc.
Qed.

Lemma copy_attempt_within s r log n w :
  within (r ++ [n]) (files w) (files (world_of (copy_attempt s r log n w))).
Proof.
  unfold copy_attempt. destruct (os_path_isdir _ _).
  - apply confined_within.
    apply (shutil_copytree_confined _ _ _ (_custom_print log _ w)).
  - apply (shutil_copy2_within _ _ (_custom_print log _ w)).
Qed.

Lemma delete_attempt_within r log n w :
  within (r ++ [n]) (files w) (files (world_of (delete_attempt r log n w))).
Proof.
  unfold delete_attempt. destruct (os_path_isdir _ _).
  - apply (shutil_rmtree_within _ (_custom_print log _ w)).
  - apply (os_remove_within _ (_custom_print log _ w)).
Qed.

Lemma copy_entry_within s r log b w n :
  within (r ++ [n]) (files w) (files (copy_entry s r log (b, w) n).2).
Proof.
  pose proof (copy_attempt_within s r log n w) as H. unfold copy_entry. simpl.
  by destruct (copy_attempt s r log n w).
Qed.

Lemma delete_entry_within r log b w n :
  within (r ++ [n]) (files w) (files (delete_entry r log (b, w) n).2).
Proof.
  pose proof (delete_attempt_within r log n w) as H. unfold delete_entry. simpl.
  by destruct (delete_attempt r log n w).
Qed.

Lemma fold_within (r : path) (step : bool * world → string → bool * world) :
  (∀ b w n, within (r ++ [n]) (files w) (files (step (b, w) n).2)) →
  ∀ names b w, within_names r names (files w) (files (fold_left step names (b, w)).2).
Proof.
  intros Hstep names. induction names as [|n names IH]; intros b w; simpl.
  - apply within_names_refl.
  - specialize (Hstep b w n). destruct (step (b, w) n) as [b1 w1]. simpl in *.
    apply (within_names_trans r [n] names _ (files w1)); [|apply IH].
    by apply within_to_names.
Qed.

Lemma reconciler_within s r names log w :
  within_names r names (files w) (files (_copy_new_modified_files s r names log w).2).
Proof. apply fold_within. intros b w' n. apply copy_entry_within. Qed.

Lemma purger_within r names log w :
  within_names r names (files w) (files (_delete_locations r names log w).2).
Proof. apply fold_within. intros b w' n. apply delete_entry_within. Qed.

Lemma turns_targets log (announce : string → list (string * event)) exn_line r
    names (turns : list (list event * bool)) :
  (∀ n act op, (act, op) ∈ announce n → target op = Some (r ++ [n])) →
  Forall2 (λ n t, turn log (announce n) (exn_line n) t.1 t.2) names turns →
  targets_below r (concat turns.*1).
Proof.
  intros Hop HF. unfold targets_below.
  induction HF as [|n t names turns Ht HF IH]; [constructor|].
  rewrite fmap_cons. change (concat (t.1 :: turns.*1)) with (t.1 ++ concat turns.*1).
  apply Forall_app. split; [|done].
  destruct Ht as [act op tm Hin|act op tm e tm' Hin]; apply Hop in Hin;
    assert (Hcall : ∀ tg, target op = Some tg → r `prefix_of` tg)
      by (intros tg Htg; rewrite Hin in Htg; injection Htg as <-; by apply prefix_app_r);
    simpl; repeat (apply Forall_cons; split); try apply Forall_nil;
    try (by intros ? [=]); done.
Qed.

Lemma stays_refl r w : stays r w w.
Proof.
  split; [apply confined_refl|]. exists []. split; [by rewrite app_nil_r|constructor].
Qed.

Lemma stays_trans r w1 w2 w3 : stays r w1 w2 → stays r w2 w3 → stays r w1 w3.
Proof.
  intros [C1 (e1 & H1 & T1)] [C2 (e2 & H2 & T2)]. split; [by eapply confined_trans|].
  exists (e1 ++ e2). rewrite H2, H1, <- app_assoc. split; [done|].
  by apply Forall_app.
Qed.

Lemma stays_child r n w w' : stays (r ++ [n]) w w' → stays r w w'.
Proof.
  intros [C (evs & H & T)]. split; [by eapply confined_child|].
  exists evs. split; [done|].
  eapply Forall_impl; [exact T|]. intros e He tg Htg.
  etrans; [|by apply He]. by apply prefix_app_r.
Qed.

Lemma reconciler_stays s r names log w :
  stays r w (_copy_new_modified_files s r names log w).2.
Proof.
  split; [eapply within_names_confined, reconciler_within|].
  destruct (reconciler_turns s r names log w) as (turns & HF & Hh).
  exists (concat turns.*1). split; [done|].
  eapply turns_targets; [|exact HF]. intros n act op. apply copy_announce_target.
Qed.

Lemma purger_stays r names log w :
  stays r w (_delete_locations r names log w).2.
Proof.
  split; [eapply within_names_confined, purger_within|].
  destruct (purger_turns r names log w) as (turns & HF & Hh).
  exists (concat turns.*1). split; [done|].
  eapply turns_targets; [|exact HF]. intros n act op. apply delete_announce_target.
Qed.

Lemma custom_print_stays r log m w : stays r w (_custom_print log m w).
Proof.
  split; [apply confined_refl|]. eexists. split; [apply history_custom_print|].
  repeat constructor; done.
Qed.

Lemma copytree_stays src dst ok w :
  stays dst w (world_of (shutil_copytree src dst ok w)).
Proof.
  split; [apply shutil_copytree_confined|].
  eexists. split; [apply shutil_copytree_history|].
  repeat constructor. by intros tg [= <-].
Qed.

(** *** The orchestrator *)

Lemma for_each_final (R : world → world → Prop) body names :
  (∀ w, R w w) →
  (∀ w1 w2 w3, R w1 w2 → R w2 w3 → R w1 w3) →
  (∀ x w w', final (body x w) = Some w' → R w w') →
  ∀ w w', final (for_each body names w) = Some w' → R w w'.
Proof.
  intros Hrefl Htrans Hbody. induction names as [|x names IH]; intros w w'; simpl.
  - intros [= <-]. apply Hrefl.
  - pose proof (Hbody x w) as Hx. destruct (body x w) as [w1|e w1|]; simpl.
    + intros H. eapply Htrans; [by apply Hx|by apply IH].
    + apply Hx.
    + done.
Qed.

Lemma folder_sync_stays fuel s r log w w' :
  final (_folder_sync fuel s r log w) = Some w' → stays r w w'.
Proof.
  revert s r w w'. induction fuel as [|fuel IH]; intros s r w w'; [done|].
  simpl. destruct (os_path_exists (files w) s); simpl.
  2:{ intros [= <-]. split; [apply confined_refl|].
      eexists. split; [done|]. repeat constructor; by intros ? [=]. }
  destruct (os_path_exists (files w) r); simpl.
  2:{ pose proof (copytree_stays s r false (_custom_print log (msg_no_replica s r) w)) as Hc.
      pose proof (custom_print_stays r log (msg_no_replica s r) w) as Hp.
      destruct (shutil_copytree _ _ _ _) as [[] w1|e w1]; simpl in *;
        intros [= <-]; by eapply stays_trans. }
  destruct (filecmp_dircmp _ _ _) as [e|cmp] eqn:Hc.
  { intros [= <-]. apply stays_refl. }
  pose proof (reconciler_stays s r (left_only cmp ++ diff_files cmp) log w) as Hrec.
  destruct (_copy_new_modified_files _ _ _ _ _) as [b1 w1]. simpl in *.
  destruct b1; simpl; [|by intros [= <-]].
  pose proof (purger_stays r (right_only cmp) log w1) as Hpur.
  destruct (_delete_locations _ _ _ _) as [b2 w2]. simpl in *.
  destruct b2; simpl; [|intros [= <-]; by eapply stays_trans].
  intros Hf. eapply stays_trans; [by eapply stays_trans|].
  eapply (for_each_final (stays r)); [apply stays_refl|apply stays_trans| |exact Hf].
  intros x wa wb Hx. eapply stays_child, IH, Hx.
Qed.

(** C6, as the code has it.  Every library call that the orchestrator, the
    reconciler and the purger make has its destination at or below the
    replica folder, and the only entries of the file system that differ
    afterwards are below the replica folder, or are the replica folder or
    missing ancestors of it, created as directories.  Hence, when neither
    folder lies inside the other, the source tree is what it was. *)
Theorem writes_stay_in_replica (fuel : nat) (s r : path) (names : list string)
    (log : string) (w : world) :
  match final (_folder_sync fuel s r log w) with
  | Some w' =>
      targets_below r (events_since w w') ∧
      confined r (files w) (files w') ∧
      (apart s r → ∀ q, files w' !! (s ++ q) = files w !! (s ++ q))
  | None => True
  end ∧
  (let w' := (_copy_new_modified_files s r names log w).2 in
   targets_below r (events_since w w') ∧
   confined r (files w) (files w') ∧
   (apart s r → ∀ q, files w' !! (s ++ q) = files w !! (s ++ q))) ∧
  (let w' := (_delete_locations r names log w).2 in
   targets_below r (events_since w w') ∧
   confined r (files w) (files w') ∧
   (apart s r → ∀ q, files w' !! (s ++ q) = files w !! (s ++ q))).
Proof.
  assert (Hgen : ∀ w', stays r w w' →
            targets_below r (events_since w w') ∧
            confined r (files w) (files w') ∧
            (apart s r → ∀ q, files w' !! (s ++ q) = files w !! (s ++ q))).
  { intros w' [C (evs & Hh & T)]. rewrite (events_since_app _ _ _ Hh).
    split; [done|]. split; [done|]. intros Ha q. by apply (confined_source s r). }
  split; [|split].
  - destruct (final _) as [w'|] eqn:E; [|done]. by eapply Hgen, folder_sync_stays.
  - apply Hgen, reconciler_stays.
  - apply Hgen, purger_stays.
Qed.

Lemma writes_stay_in_replica_witness :
  files (_copy_new_modified_files ["s"] ["r"] ["a.txt"; "d"] "sync.log" w_locked).2
    !! (["s"] ++ ["d"; "b.txt"])
  = files w_locked !! (["s"] ++ ["d"; "b.txt"]).
Proof.
  apply (writes_stay_in_replica 0 ["s"] ["r"] ["a.txt"; "d"] "sync.log" w_locked).
  split; intros [k Hk]; discriminate Hk.
Defined.

(** C6, as stated, fails on the run given here: the source folder lies
    inside the replica folder, it is an entry that only the replica has, and
    the purger removes it. *)
Lemma source_inside_replica_is_deleted :
  ∃ w', _folder_sync 2 ["r"; "s"] ["r"] "sync.log" (mk_world fs_nested ∅) = Returned w' ∧
        fs_nested !! ["r"; "s"; "f"] = Some (File "data" 7) ∧
        files w' !! ["r"; "s"] = None ∧
        files w' !! ["r"; "s"; "f"] = None ∧
        RmTree ["r"; "s"] ∈ history w'.
Proof.
  eexists. split; [vm_compute; reflexivity|].
  split; [vm_compute; reflexivity|].
  split; [vm_compute; reflexivity|].
  split; [vm_compute; reflexivity|].
  vm_compute. do 5 apply list_elem_of_further. apply list_elem_of_here.
Qed.

(** ** What [dircmp] reports *)

Lemma child_name_spec p k x : child_name p k = Some x ↔ k = p ++ [x].
Proof.
  unfold child_name. destruct (strip p k) as [[|n [|m q]]|] eqn:E.
  - apply strip_spec in E as ->. split; [done|].
    intros H. apply (f_equal length) in H. rewrite !length_app in H. simpl in H. lia.
  - apply strip_spec in E as ->. split; [by intros [= ->]|].
    intros H. apply app_inv_head in H. by injection H as ->.
  - apply strip_spec in E as ->. split; [done|].
    intros H. apply app_inv_head in H. done.
  - split; [done|]. intros ->. by rewrite strip_app in E.
Qed.

Lemma NoDup_omap_inj {A B} (f : A → option B) (l : list A) :
  (∀ x y z, f x = Some z → f y = Some z → x = y) → NoDup l → NoDup (omap f l).
Proof.
  intros Hinj. induction 1 as [|x l Hx Hl IH]; simpl; [constructor|].
  destruct (f x) as [z|] eqn:E; [|done].
  constructor; [|done]. intros Hin.
  apply list_elem_of_omap in Hin as (y & Hy & Hfy).
  assert (x = y) by by eapply Hinj. by subst.
Qed.

Lemma listdir_spec fs p l :
  os_listdir fs p = inr l →
  fs !! p = Some Dir ∧ NoDup l ∧ ∀ x, x ∈ l ↔ is_Some (fs !! (p ++ [x])).
Proof.
  unfold os_listdir. destruct (fs !! p) as [[]|] eqn:E; try done.
  intros [= <-]. split; [done|]. split.
  - apply NoDup_omap_inj; [|apply NoDup_fst_map_to_list].
    intros k1 k2 x H1 H2. apply child_name_spec in H1, H2. congruence.
  - intros x. rewrite list_elem_of_omap. split.
    + intros (k & Hk & Hc). apply child_name_spec in Hc as ->.
      apply list_elem_of_fmap in Hk as ([k' e] & -> & Hk).
      apply elem_of_map_to_list in Hk. by eexists.
    + intros [e He]. exists (p ++ [x]). split; [|by apply child_name_spec].
      apply list_elem_of_fmap. exists (p ++ [x], e).
      split; [done|]. by apply elem_of_map_to_list.
Qed.

Lemma listdir_dir fs p : fs !! p = Some Dir → ∃ l, os_listdir fs p = inr l.
Proof. intros H. unfold os_listdir. rewrite H. by eexists. Qed.

Lemma sort_names_elem l x : x ∈ sort_names l ↔ x ∈ l.
Proof. unfold sort_names. by rewrite merge_sort_Permutation. Qed.

Lemma sort_names_NoDup l : NoDup l → NoDup (sort_names l).
Proof. unfold sort_names. by rewrite merge_sort_Permutation. Qed.

Lemma phase2_dirs fs a b x :
  phase2_kind fs a b x = BothDirs ↔
  fs !! (a ++ [x]) = Some Dir ∧ fs !! (b ++ [x]) = Some Dir.
Proof.
  unfold phase2_kind.
  destruct (fs !! (a ++ [x])) as [[]|], (fs !! (b ++ [x])) as [[]|];
    split; try done; intros [? ?]; done.
Qed.

Lemma phase2_files fs a b x :
  phase2_kind fs a b x = BothFiles ↔
  ∃ d1 m1 d2 m2, fs !! (a ++ [x]) = Some (File d1 m1) ∧ fs !! (b ++ [x]) = Some (File d2 m2).
Proof.
  unfold phase2_kind.
  destruct (fs !! (a ++ [x])) as [[]|], (fs !! (b ++ [x])) as [[]|];
    split; try done; try (intros (? & ? & ? & ? & ? & ?); done).
  intros _. eauto 10.
Qed.

Lemma is_Some_None {A} (o : option A) : ¬ is_Some o ↔ o = None.
Proof. by rewrite eq_None_not_Some. Qed.

Lemma dircmp_spec fs a b cmp :
  filecmp_dircmp fs a b = inr cmp →
  fs !! a = Some Dir ∧ fs !! b = Some Dir ∧ dircmp_facts fs a b cmp.
Proof.
  unfold filecmp_dircmp.
  destruct (os_listdir fs a) as [|la] eqn:Ea; [done|].
  destruct (os_listdir fs b) as [|lb] eqn:Eb; [done|].
  apply listdir_spec in Ea as (Ha & Nla & Hla).
  apply listdir_spec in Eb as (Hb & Nlb & Hlb).
  intros Heq. split; [done|]. split; [done|]. cbv zeta in Heq.
  remember (sort_names (_filter la (DEFAULT_HIDE ++ DEFAULT_IGNORES))) as ll eqn:Ell.
  remember (sort_names (_filter lb (DEFAULT_HIDE ++ DEFAULT_IGNORES))) as rl eqn:Erl.
  assert (Hll : ∀ x, x ∈ ll ↔ visible x ∧ is_Some (fs !! (a ++ [x]))).
  { intros x. rewrite Ell. unfold _filter.
    rewrite sort_names_elem, list_elem_of_filter, Hla. done. }
  assert (Hrl : ∀ x, x ∈ rl ↔ visible x ∧ is_Some (fs !! (b ++ [x]))).
  { intros x. rewrite Erl. unfold _filter.
    rewrite sort_names_elem, list_elem_of_filter, Hlb. done. }
  assert (Nll : NoDup ll) by (rewrite Ell; apply sort_names_NoDup, NoDup_filter, Nla).
  assert (Nrl : NoDup rl) by (rewrite Erl; apply sort_names_NoDup, NoDup_filter, Nlb).
  clear Ell Erl. injection Heq as <-.
  split; simpl.
  - intros x. rewrite list_elem_of_filter, Hll, Hrl, <- is_Some_None. tauto.
  - intros x. rewrite list_elem_of_filter, Hll, Hrl, <- is_Some_None. tauto.
  - intros x. rewrite !list_elem_of_filter, Hll, Hrl, phase2_dirs.
    split; [tauto|]. intros [Hv [H1 H2]]. rewrite H1, H2. repeat split; eauto.
  - intros x. rewrite !list_elem_of_filter, Hll, Hrl, phase2_files.
    split; [tauto|]. intros [Hv [(d1 & m1 & d2 & m2 & H1 & H2) Hc]].
    rewrite H1, H2. repeat split; eauto 10.
  - apply NoDup_app. split; [by apply NoDup_filter|].
    split; [|by do 3 apply NoDup_filter].
    intros x. rewrite !list_elem_of_filter. tauto.
  - by apply NoDup_filter.
  - by do 2 apply NoDup_filter.
Qed.

Lemma dircmp_dirs fs a b :
  fs !! a = Some Dir → fs !! b = Some Dir → ∃ cmp, filecmp_dircmp fs a b = inr cmp.
Proof.
  intros Ha Hb. unfold filecmp_dircmp.
  destruct (listdir_dir _ _ Ha) as [la ->]. destruct (listdir_dir _ _ Hb) as [lb ->].
  by eexists.
Qed.

(** ** What a successful library call has done *)

Lemma shutil_copy2_ok src dst w w' :
  shutil_copy2 src dst w = Ok () w' →
  ∃ d m, files w !! src = Some (File d m) ∧
         files w' = <[copy2_target (files w) src dst := File d m]> (files w).
Proof.
  unfold shutil_copy2. simpl.
  destruct (files w !! src) as [[d m|]|]; simpl; try done.
  case_decide; simpl; try done.
  destruct (files w !! copy2_target _ _ _) as [[]|]; simpl; try done;
    destruct (files w !! dirname _) as [[]|]; simpl; try done;
    case_decide; simpl; try done; intros [= <-]; by exists d, m.
Qed.

Lemma os_remove_ok p w w' :
  os_remove p w = Ok () w' → files w' = delete p (files w).
Proof.
  unfold os_remove. simpl.
  destruct (files w !! p) as [[]|]; simpl; try done.
  case_decide; simpl; try done. by intros [= <-].
Qed.

Lemma shutil_rmtree_ok p w w' :
  shutil_rmtree p w = Ok () w' → ∀ q, files w' !! (p ++ q) = None.
Proof.
  unfold shutil_rmtree. simpl.
  destruct (files w !! p) as [[]|]; simpl; try done.
  destruct (elements _); simpl; try done. intros [= <-] q. simpl.
  apply map_lookup_filter_None. right. intros e _ Hn. apply Hn. simpl.
  by apply prefix_app_r.
Qed.

Lemma nonempty_prefixes_snoc (q : path) x :
  nonempty_prefixes (q ++ [x]) = nonempty_prefixes q ++ [q ++ [x]].
Proof.
  unfold nonempty_prefixes. rewrite length_app. simpl.
  rewrite seq_app, map_app. simpl. f_equal.
  - apply map_ext_in. intros i Hi. apply in_seq in Hi.
    rewrite take_app_le by lia. done.
  - f_equal. apply take_ge. rewrite length_app. simpl. lia.
Qed.

Lemma blocked_snoc prot ok fs src dst (q : path) x :
  blocked prot ok fs src dst (q ++ [x])
  = blocked prot ok fs src dst q || step_fails prot ok fs src dst (q ++ [x]).
Proof.
  unfold blocked. rewrite nonempty_prefixes_snoc, existsb_app. simpl.
  by rewrite orb_false_r.
Qed.

Lemma step_fails_exists prot ok fs src dst q :
  step_fails prot ok fs src dst q = true → is_Some (fs !! (src ++ q)).
Proof. unfold step_fails. destruct (fs !! (src ++ q)); [by eexists|done]. Qed.

Lemma shutil_copytree_ok_unblocked src dst ok w w' :
  shutil_copytree src dst ok w = Ok () w' →
  ∀ q, blocked (protected w) ok (files w) src dst q = false.
Proof.
  unfold shutil_copytree. simpl.
  destruct (os_listdir _ _); simpl; [done|].
  destruct (os_makedirs _ _ _ _) as [e|fs1]; simpl; [done|].
  match goal with
  | |- context [match ?x with [] => _ | _ :: _ => _ end] => destruct x eqn:Ef
  end; [|done].
  intros _ q. induction q as [|x q IH] using rev_ind; [done|].
  rewrite blocked_snoc, IH. simpl.
  destruct (step_fails _ _ _ _ _ (q ++ [x])) eqn:Es; [|done].
  destruct (step_fails_exists _ _ _ _ _ _ Es) as [e He].
  assert (Hin : (q ++ [x], e) ∈ below (files w) src).
  { apply below_spec. split; [|done]. by destruct q. }
  assert (Hf : Some (src ++ q ++ [x], dst ++ q ++ [x]) ∈
          (λ qe, if step_fails (protected w) ok (files w) src dst qe.1
                    && negb (blocked (protected w) ok (files w) src dst (dirname qe.1))
                 then Some (src ++ qe.1, dst ++ qe.1) else None) <$> below (files w) src).
  { apply list_elem_of_fmap. exists (q ++ [x], e). split; [|done]. simpl.
    unfold dirname. rewrite removelast_last, Es, IH. done. }
  apply list_elem_of_fmap in Hf as (qe & Hqe & Hqin).
  assert (Hom : (src ++ q ++ [x], dst ++ q ++ [x]) ∈
          omap (λ qe, if step_fails (protected w) ok (files w) src dst qe.1
                    && negb (blocked (protected w) ok (files w) src dst (dirname qe.1))
                 then Some (src ++ qe.1, dst ++ qe.1) else None) (below (files w) src)).
  { apply list_elem_of_omap. by exists qe. }
  rewrite Ef in Hom. by apply elem_of_nil in Hom.
Qed.

Lemma shutil_copytree_ok_source src dst ok w w' :
  shutil_copytree src dst ok w = Ok () w' → files w !! src = Some Dir.
Proof.
  unfold shutil_copytree. simpl.
  destruct (os_listdir _ _) as [|l] eqn:E; simpl; [done|].
  intros _. by apply listdir_spec in E as (? & _).
Qed.

(** A [copytree] that succeeds onto a destination where nothing is makes
    the destination a copy of the source. *)
Lemma shutil_copytree_fresh src dst ok w w' :
  shutil_copytree src dst ok w = Ok () w' →
  dst ≠ [] →
  (∀ q, files w !! (dst ++ q) = None) →
  ∀ q, files w' !! (dst ++ q) = files w !! (src ++ q).
Proof.
  intros Hok Hne Hfresh.
  pose proof (shutil_copytree_ok_unblocked _ _ _ _ _ Hok) as Hub.
  pose proof (shutil_copytree_ok_source _ _ _ _ _ Hok) as Hsrc.
  revert Hok. unfold shutil_copytree. simpl.
  destruct (os_listdir _ _) as [|l]; simpl; [done|].
  destruct (os_makedirs _ _ _ _) as [e|fs1] eqn:Em; simpl; [done|].
  match goal with
  | |- context [match ?x with [] => _ | _ :: _ => _ end] => destruct x
  end; [|done].
  intros [= <-] q. simpl.
  assert (Hplan : ∀ q' e', copy_plan (protected w) ok (files w) src dst (q', e')
                           = Some (dst ++ q', e')).
  { intros q' e'. unfold copy_plan. simpl. rewrite Hub.
    destruct e' as [d m|]; [|done]. unfold copy2_target, os_path_isdir.
    rewrite bool_decide_eq_false_2; [done|]. by rewrite Hfresh. }
  destruct q as [|n q].
  { rewrite !app_nil_r, lookup_union_r.
    - rewrite Hsrc. by apply (makedirs_from_leaf _ _ [] _ _ _ Em).
    - apply copytree_plan_keys. intros (n & q & Hq).
      apply (f_equal length) in Hq. rewrite length_app in Hq. simpl in Hq. lia. }
  destruct (files w !! (src ++ n :: q)) as [e|] eqn:Es.
  - apply lookup_union_Some_l. apply elem_of_list_to_map_1'.
    + intros y Hy. apply list_elem_of_omap in Hy as ([q' e'] & Hin & Hp).
      rewrite Hplan in Hp. injection Hp as Hq <-. apply app_inv_head in Hq as ->.
      apply below_spec in Hin as [_ Hin]. congruence.
    + apply list_elem_of_omap. exists (n :: q, e). split; [|apply Hplan].
      by apply below_spec.
  - rewrite lookup_union_r.
    + destruct (makedirs_from_frame _ _ _ _ _ _ Em (dst ++ n :: q)) as [->|(Hp & _)];
        [apply Hfresh|].
      simpl in Hp. destruct Hp as [k Hk]. apply (f_equal length) in Hk.
      rewrite !length_app in Hk. simpl in Hk. lia.
    + apply not_elem_of_list_to_map_1. intros Hin.
      apply list_elem_of_fmap in Hin as ([k e] & Hk & Hin). simpl in Hk. subst k.
      apply list_elem_of_omap in Hin as ([q' e'] & Hin & Hp).
      rewrite Hplan in Hp. injection Hp as Hq <-. apply app_inv_head in Hq as ->.
      apply below_spec in Hin as [_ Hin]. congruence.
Qed.

(** ** A reconciler and a purger that report no failure *)

Lemma within_other_name r m n q fs fs' :
  within (r ++ [m]) fs fs' → m ≠ n →
  fs' !! ((r ++ [n]) ++ q) = fs !! ((r ++ [n]) ++ q).
Proof.
  intros H Hne. apply (within_elsewhere (r ++ [m])); [done| |].
  - rewrite <- app_assoc. intros Hp. by apply child_prefix_inv in Hp.
  - intros Hp. apply prefix_snoc_inv in Hp as [Hp|Hp].
    + rewrite <- app_assoc in Hp. apply app_inv_head in Hp. by injection Hp.
    + destruct Hp as [k Hk]. apply (f_equal length) in Hk.
      rewrite !length_app in Hk. simpl in Hk. lia.
Qed.

Lemma within_names_other r names n q fs fs' :
  within_names r names fs fs' → n ∉ names →
  fs' !! ((r ++ [n]) ++ q) = fs !! ((r ++ [n]) ++ q).
Proof.
  intros H Hn. destruct (H ((r ++ [n]) ++ q)) as [E|[(m & Hm & Hp)|(Hp & _)]]; [done| |].
  - rewrite <- app_assoc in Hp. apply child_prefix_inv in Hp. by subst.
  - destruct Hp as [k Hk]. apply (f_equal length) in Hk.
    rewrite !length_app in Hk. simpl in Hk. lia.
Qed.

Lemma within_names_root r names fs fs' :
  within_names r names fs fs' → is_Some (fs !! r) → fs' !! r = fs !! r.
Proof.
  intros H [e He]. destruct (H r) as [E|[(m & Hm & Hp)|(_ & N & _)]]; [done| |congruence].
  by apply prefix_snoc_not in Hp.
Qed.

Lemma within_names_source s r names fs fs' q :
  within_names r names fs fs' → apart s r → fs' !! (s ++ q) = fs !! (s ++ q).
Proof. intros H. apply confined_source. by eapply within_names_confined. Qed.

Lemma copied_stable fs fs' s r n :
  (∀ q, fs' !! ((s ++ [n]) ++ q) = fs !! ((s ++ [n]) ++ q)) →
  (∀ q, fs' !! ((r ++ [n]) ++ q) = fs !! ((r ++ [n]) ++ q)) →
  copied fs s r n → copied fs' s r n.
Proof.
  intros Hs Hr. unfold copied.
  pose proof (Hs []) as Hs0. pose proof (Hr []) as Hr0. rewrite !app_nil_r in Hs0, Hr0.
  rewrite Hs0, Hr0. destruct (fs !! (s ++ [n])) as [[]|]; try done.
  intros H q. by rewrite Hs, Hr.
Qed.

Lemma phase2_kind_stable fs fs' s r n :
  fs' !! (s ++ [n]) = fs !! (s ++ [n]) →
  fs' !! (r ++ [n]) = fs !! (r ++ [n]) →
  phase2_kind fs' s r n = phase2_kind fs s r n.
Proof. intros Hs Hr. unfold phase2_kind. by rewrite Hs, Hr. Qed.

Lemma filecmp_cmp_stable fs fs' a b :
  fs' !! a = fs !! a → fs' !! b = fs !! b → filecmp_cmp fs' a b = filecmp_cmp fs a b.
Proof. intros Ha Hb. unfold filecmp_cmp. by rewrite Ha, Hb. Qed.

Lemma copyable_stable fs fs' s r n :
  fs' !! (s ++ [n]) = fs !! (s ++ [n]) →
  (∀ q, fs' !! ((r ++ [n]) ++ q) = fs !! ((r ++ [n]) ++ q)) →
  copyable fs s r n → copyable fs' s r n.
Proof.
  intros Hs Hr [H|H]; [left|right].
  - intros q. by rewrite Hr.
  - rewrite <- H. apply phase2_kind_stable; [done|].
    specialize (Hr []). by rewrite !app_nil_r in Hr.
Qed.

Lemma copy_attempt_ok s r log n w w' :
  apart s r →
  copy_attempt s r log n w = Ok () w' →
  copyable (files w) s r n →
  copied (files w') s r n.
Proof.
  intros Ha Hok Hc.
  pose proof (copy_attempt_within s r log n w) as Hw. rewrite Hok in Hw. simpl in Hw.
  assert (Hsrc : ∀ q, files w' !! ((s ++ [n]) ++ q) = files w !! ((s ++ [n]) ++ q)).
  { intros q. rewrite <- app_assoc.
    eapply confined_source; [|done]. by eapply within_child_confined. }
  pose proof (Hsrc []) as Hs0. rewrite app_nil_r in Hs0.
  revert Hok. unfold copy_attempt, copied.
  destruct (os_path_isdir (files w) (s ++ [n])) eqn:Ed.
  - apply isdir_true_lookup in Ed. rewrite Hs0, Ed. intros Hok q.
    destruct Hc as [Hfresh|Hk].
    + rewrite Hsrc.
      apply (shutil_copytree_fresh _ _ _ _ _ Hok); [by destruct r|done].
    + apply phase2_files in Hk as (? & ? & ? & ? & Hk & _). congruence.
  - intros Hok. apply shutil_copy2_ok in Hok as (d & m & Hsn & Hf).
    simpl in Hsn, Hf. rewrite Hs0, Hsn.
    assert (Ht : copy2_target (files w) (s ++ [n]) (r ++ [n]) = r ++ [n]).
    { unfold copy2_target, os_path_isdir. rewrite bool_decide_eq_false_2; [done|].
      destruct Hc as [Hfresh|Hk].
      - specialize (Hfresh []). rewrite app_nil_r in Hfresh. by rewrite Hfresh.
      - apply phase2_files in Hk as (? & ? & ? & ? & _ & Hk). by rewrite Hk. }
    rewrite Hf, Ht. apply lookup_insert_eq.
Qed.

Lemma fold_copy_false s r log names w :
  (fold_left (copy_entry s r log) names (false, w)).1 = false.
Proof.
  revert w. induction names as [|n names IH]; intros w; simpl; [done|].
  unfold copy_entry at 2. simpl.
  destruct (copy_attempt s r log n w); apply IH.
Qed.

Lemma fold_delete_false r log names w :
  (fold_left (delete_entry r log) names (false, w)).1 = false.
Proof.
  revert w. induction names as [|n names IH]; intros w; simpl; [done|].
  unfold delete_entry at 2. simpl.
  destruct (delete_attempt r log n w); apply IH.
Qed.

Lemma reconciler_ok s r log names w w' :
  apart s r → NoDup names →
  (∀ n, n ∈ names → copyable (files w) s r n) →
  _copy_new_modified_files s r names log w = (true, w') →
  ∀ n, n ∈ names → copied (files w') s r n.
Proof.
  intros Ha. unfold _copy_new_modified_files. generalize true at 1.
  revert w. induction names as [|m names IH]; intros w b Hnd Hc Hf n Hn;
    [by apply elem_of_nil in Hn|].
  apply NoDup_cons in Hnd as [Hm Hnd]. simpl in Hf.
  unfold copy_entry at 2 in Hf. simpl in Hf.
  destruct (copy_attempt s r log m w) as [[] w1|e w1] eqn:Em.
  2:{ pose proof (fold_copy_false s r log names
                    (_custom_print log (msg_copy_exn m e) w1)) as Hfalse.
      rewrite Hf in Hfalse. done. }
  pose proof (copy_attempt_within s r log m w) as Hw. rewrite Em in Hw. simpl in Hw.
  assert (Hsrc : ∀ q, files w1 !! (s ++ q) = files w !! (s ++ q)).
  { intros q. eapply confined_source; [|done]. by eapply within_child_confined. }
  apply elem_of_cons in Hn as [->|Hn].
  - pose proof (fold_within r (copy_entry s r log)
                  (copy_entry_within s r log) names b w1) as Hrest.
    rewrite Hf in Hrest. simpl in Hrest.
    eapply copied_stable; [| |eapply copy_attempt_ok; [done|exact Em|]].
    + intros q. rewrite <- app_assoc. by eapply within_names_source.
    + intros q. by eapply within_names_other.
    + apply Hc, list_elem_of_here.
  - eapply IH; [done| |exact Hf|done].
    intros n' Hn'. assert (m ≠ n') by (intros ->; done).
    eapply copyable_stable; [| |apply Hc; by apply list_elem_of_further].
    + apply Hsrc.
    + intros q. by eapply within_other_name.
Qed.

Lemma delete_attempt_ok r log n w w' :
  delete_attempt r log n w = Ok () w' → files w' !! (r ++ [n]) = None.
Proof.
  unfold delete_attempt. destruct (os_path_isdir _ _).
  - intros Hok. apply shutil_rmtree_ok with (q := []) in Hok.
    by rewrite app_nil_r in Hok.
  - intros Hok. apply os_remove_ok in Hok. rewrite Hok. apply lookup_delete_eq.
Qed.

Lemma purger_ok r log names w w' :
  NoDup names →
  _delete_locations r names log w = (true, w') →
  ∀ n, n ∈ names → files w' !! (r ++ [n]) = None.
Proof.
  unfold _delete_locations. generalize true at 1.
  revert w. induction names as [|m names IH]; intros w b Hnd Hf n Hn;
    [by apply elem_of_nil in Hn|].
  apply NoDup_cons in Hnd as [Hm Hnd]. simpl in Hf.
  unfold delete_entry at 2 in Hf. simpl in Hf.
  destruct (delete_attempt r log m w) as [[] w1|e w1] eqn:Em.
  2:{ pose proof (fold_delete_false r log names
                    (_custom_print log (msg_delete_exn m e) w1)) as Hfalse.
      rewrite Hf in Hfalse. done. }
  apply elem_of_cons in Hn as [->|Hn].
  - pose proof (fold_within r (delete_entry r log)
                  (delete_entry_within r log) names b w1) as Hrest.
    rewrite Hf in Hrest. simpl in Hrest.
    pose proof (within_names_other r names m [] _ _ Hrest Hm) as Hst.
    rewrite !app_nil_r in Hst. rewrite Hst. by eapply delete_attempt_ok.
  - by eapply IH.
Qed.

(** ** Folders in agreement *)

Lemma in_sync_stable k fs fs' s r :
  (∀ q, fs' !! (s ++ q) = fs !! (s ++ q)) →
  (∀ q, fs' !! (r ++ q) = fs !! (r ++ q)) →
  in_sync k fs s r → in_sync k fs' s r.
Proof.
  revert s r. induction k as [|k IH]; intros s r Hs Hr; [done|].
  simpl. intros (Ds & Dr & Hx).
  pose proof (Hs []) as Hs0. pose proof (Hr []) as Hr0. rewrite app_nil_r in Hs0, Hr0.
  split; [congruence|]. split; [congruence|].
  intros x Hv. destruct (Hx x Hv) as (H1 & H2 & H3).
  rewrite (phase2_kind_stable fs fs' s r x), (filecmp_cmp_stable fs fs'), !Hs, !Hr
    by (apply Hs || apply Hr).
  split; [done|]. split; [done|].
  intros Hk. apply IH; [| |by apply H3].
  - intros q. rewrite <- app_assoc. apply Hs.
  - intros q. rewrite <- app_assoc. apply Hr.
Qed.

Lemma in_sync_mono k k' fs s r : in_sync k fs s r → (k ≤ k')%nat → in_sync k' fs s r.
Proof.
  revert k' s r. induction k as [|k IH]; intros k' s r; [done|].
  intros H Hle. destruct k' as [|k']; [lia|].
  simpl in *. destruct H as (Ds & Dr & Hx). split; [done|]. split; [done|].
  intros x Hv. destruct (Hx x Hv) as (H1 & H2 & H3).
  split; [done|]. split; [done|]. intros Hk. apply IH; [by apply H3|lia].
Qed.

Lemma filecmp_cmp_same fs a b d m :
  fs !! a = Some (File d m) → fs !! b = Some (File d m) → filecmp_cmp fs a b = Some true.
Proof. intros Ha Hb. unfold filecmp_cmp. rewrite Ha, Hb. by rewrite decide_True. Qed.

Lemma filecmp_cmp_files fs a b x :
  phase2_kind fs a b x = BothFiles →
  filecmp_cmp fs (a ++ [x]) (b ++ [x]) ≠ Some false →
  filecmp_cmp fs (a ++ [x]) (b ++ [x]) = Some true.
Proof.
  intros (d1 & m1 & d2 & m2 & Ha & Hb)%phase2_files. unfold filecmp_cmp.
  rewrite Ha, Hb. repeat case_decide; try done; by destruct (bool_decide _).
Qed.

(** A replica folder that is a copy of the source folder agrees with it. *)
Lemma mirror_in_sync k fs s r :
  fs !! s = Some Dir →
  (∀ q, fs !! (r ++ q) = fs !! (s ++ q)) →
  (∀ q, is_Some (fs !! (s ++ q)) → (length q < k)%nat) →
  in_sync k fs s r.
Proof.
  revert s r. induction k as [|k IH]; intros s r Hs Hm Hk.
  { specialize (Hk []). rewrite app_nil_r, Hs in Hk. assert (0 < 0)%nat by eauto. lia. }
  simpl. split; [done|]. split; [by rewrite <- (app_nil_r r), Hm, app_nil_r|].
  intros x Hv. rewrite Hm. split; [done|]. split.
  - intros (d1 & m1 & d2 & m2 & Ha & Hb)%phase2_files.
    rewrite Hm in Hb. eapply filecmp_cmp_same; [done|]. by rewrite Hm.
  - intros [Ha Hb]%phase2_dirs. apply IH; [done| |].
    + intros q. by rewrite <- !app_assoc.
    + intros q Hq. rewrite <- app_assoc in Hq. apply Hk in Hq. simpl in Hq. lia.
Qed.

(** A file system has a height. *)
Lemma fs_height (fs : fsmap) : ∃ k, ∀ p, is_Some (fs !! p) → (length p < k)%nat.
Proof.
  exists (S (max_list (length <$> (map_to_list fs).*1))).
  intros p [e He]. apply Nat.lt_succ_r, max_list_elem_of_le.
  apply list_elem_of_fmap. exists p. split; [done|].
  apply list_elem_of_fmap. exists (p, e). split; [done|]. by apply elem_of_map_to_list.
Qed.

Lemma mirror_in_sync_ex fs s r :
  fs !! s = Some Dir → (∀ q, fs !! (r ++ q) = fs !! (s ++ q)) → ∃ k, in_sync k fs s r.
Proof.
  intros Hs Hm. destruct (fs_height fs) as [k Hk]. exists k.
  apply mirror_in_sync; [done|done|].
  intros q Hq. apply Hk in Hq. rewrite length_app in Hq. lia.
Qed.

Lemma for_each_noop body names w :
  (∀ x, x ∈ names → body x w = Returned w) → for_each body names w = Returned w.
Proof.
  induction names as [|x names IH]; intros H; simpl; [done|].
  rewrite (H x) by apply list_elem_of_here. apply IH.
  intros y Hy. apply H. by apply list_elem_of_further.
Qed.

(** On folders in agreement a call does nothing at all. *)
Lemma in_sync_noop k fuel s r log w :
  in_sync k (files w) s r → (k ≤ fuel)%nat → _folder_sync fuel s r log w = Returned w.
Proof.
  revert fuel s r. induction k as [|k IH]; intros fuel s r; [done|].
  intros (Ds & Dr & Hx) Hle. destruct fuel as [|fuel]; [lia|].
  destruct (dircmp_dirs _ _ _ Ds Dr) as [cmp Hc].
  rewrite (folder_sync_level _ _ _ _ _ cmp); [|apply exists_true_lookup; by eexists..|done].
  apply dircmp_spec in Hc as (_ & _ & F).
  assert (Hl : left_only cmp = []).
  { apply elem_of_nil_inv. intros x (Hv & Hs & Hn)%(df_left_only _ _ _ _ F).
    apply Hx in Hv as (Hv & _). apply Hv in Hs. rewrite Hn in Hs. by destruct Hs. }
  assert (Hd : diff_files cmp = []).
  { apply elem_of_nil_inv. intros x (Hv & Hk & Hn)%(df_diff_files _ _ _ _ F).
    apply Hx in Hv as (_ & Hv & _). apply Hv in Hk. congruence. }
  assert (Hr : right_only cmp = []).
  { apply elem_of_nil_inv. intros x (Hv & Hs & Hn)%(df_right_only _ _ _ _ F).
    apply Hx in Hv as (Hv & _). apply Hv in Hs. rewrite Hn in Hs. by destruct Hs. }
  rewrite Hl, Hd, Hr. simpl. apply for_each_noop.
  intros x (Hv & Hk)%(df_common_dirs _ _ _ _ F).
  apply IH; [|lia]. by apply Hx.
Qed.

(** ** A run without failure brings the replica in agreement *)

Lemma failure_free_app a b : failure_free (a ++ b) ↔ failure_free a ∧ failure_free b.
Proof. unfold failure_free. rewrite console_of_app. apply Forall_app. Qed.

Lemma copy_exn_line n e : String.prefix "Exception " (msg_copy_exn n e) = true.
Proof. done. Qed.

Lemma delete_exn_line n e : String.prefix "Exception " (msg_delete_exn n e) = true.
Proof. done. Qed.

Lemma turns_failure_free log (announce : string → list (string * event)) exn_line
    names (turns : list (list event * bool)) :
  (∀ n e, String.prefix "Exception " (exn_line n e) = true) →
  Forall2 (λ n t, turn log (announce n) (exn_line n) t.1 t.2) names turns →
  failure_free (concat turns.*1) → forallb id turns.*2 = true.
Proof.
  intros Hline HF. induction HF as [|n t names turns Ht HF IH]; [done|].
  rewrite !fmap_cons. change (concat (t.1 :: turns.*1)) with (t.1 ++ concat turns.*1).
  intros [H1 H2]%failure_free_app. simpl. rewrite IH by done.
  destruct Ht as [act op tm Hin|act op tm e tm' Hin]; [done|].
  unfold failure_free in H1. rewrite Forall_forall in H1.
  specialize (H1 (exn_line n e)). rewrite Hline in H1. simpl.
  assert (true = false); [|done]. apply H1.
  apply list_elem_of_omap. exists (Print (exn_line n e)). split; [|done].
  do 3 apply list_elem_of_further. apply list_elem_of_here.
Qed.

Lemma reconciler_failure_free s r names log w :
  failure_free (events_since w (_copy_new_modified_files s r names log w).2) →
  (_copy_new_modified_files s r names log w).1 = true.
Proof.
  destruct (fold_turns log (copy_announce s r) msg_copy_exn (copy_entry s r log)
              (copy_entry_turn s r log) names true w) as (turns & HF & Hh & Hb).
  unfold _copy_new_modified_files. rewrite (events_since_app _ _ _ Hh), Hb. simpl.
  eapply turns_failure_free; [|exact HF]. apply copy_exn_line.
Qed.

Lemma purger_failure_free r names log w :
  failure_free (events_since w (_delete_locations r names log w).2) →
  (_delete_locations r names log w).1 = true.
Proof.
  destruct (fold_turns log (delete_announce r) msg_delete_exn (delete_entry r log)
              (delete_entry_turn r log) names true w) as (turns & HF & Hh & Hb).
  unfold _delete_locations. rewrite (events_since_app _ _ _ Hh), Hb. simpl.
  eapply turns_failure_free; [|exact HF]. apply delete_exn_line.
Qed.

Lemma rooted_child r d fs : rooted r fs → rooted (r ++ [d]) fs.
Proof.
  intros H q q' Hq. specialize (H ([d] ++ q) q'). rewrite app_assoc in H. by apply H.
Qed.

Lemma rooted_stable r fs fs' :
  (∀ q, fs' !! (r ++ q) = fs !! (r ++ q)) → rooted r fs → rooted r fs'.
Proof. intros Hq H q q'. rewrite <- app_assoc, !Hq, app_assoc. apply H. Qed.

Lemma rooted_fresh r fs n :
  rooted r fs → fs !! (r ++ [n]) = None → ∀ q, fs !! ((r ++ [n]) ++ q) = None.
Proof. intros H Hn q. by apply H. Qed.

Lemma for_each_stays fuel s r log names w w' :
  for_each (λ n, _folder_sync fuel (s ++ [n]) (r ++ [n]) log) names w = Returned w' →
  stays r w w'.
Proof.
  intros H. eapply (for_each_final (stays r)); [apply stays_refl|apply stays_trans| |].
  - intros x wa wb Hx. eapply stays_child, folder_sync_stays, Hx.
  - by rewrite H.
Qed.

Lemma bound_all {A} (P : nat → A → Prop) (l : list A) :
  (∀ x k k', P k x → (k ≤ k')%nat → P k' x) →
  (∀ x, x ∈ l → ∃ k, P k x) → ∃ K, ∀ x, x ∈ l → P K x.
Proof.
  intros Hmono. induction l as [|x l IH]; intros H.
  - exists 0. intros x Hx. by apply elem_of_nil in Hx.
  - destruct IH as [K1 HK1]; [intros y Hy; apply H; by apply list_elem_of_further|].
    destruct (H x) as [K2 HK2]; [apply list_elem_of_here|].
    exists (K1 `max` K2). intros y Hy. apply elem_of_cons in Hy as [->|Hy].
    + eapply Hmono; [exact HK2|lia].
    + eapply Hmono; [by apply HK1|lia].
Qed.

Section level.
Context (fuel : nat) (log : string).
Context (IHfuel : ∀ s r w w', apart s r → rooted r (files w) →
          _folder_sync fuel s r log w = Returned w' →
          failure_free (events_since w w') → ∃ k, in_sync k (files w') s r).

Lemma loop_converges s r names w w' :
  apart s r → NoDup names →
  (∀ d, d ∈ names → rooted (r ++ [d]) (files w)) →
  for_each (λ n, _folder_sync fuel (s ++ [n]) (r ++ [n]) log) names w = Returned w' →
  failure_free (events_since w w') →
  within_names r names (files w) (files w') ∧
  ∀ d, d ∈ names → ∃ k, in_sync k (files w') (s ++ [d]) (r ++ [d]).
Proof.
  intros Ha. revert w. induction names as [|d names IH]; intros w Hnd Hroot Hf Hff.
  { simpl in Hf. injection Hf as <-. split; [apply within_names_refl|].
    intros d Hd. by apply elem_of_nil in Hd. }
  apply NoDup_cons in Hnd as [Hd Hnd]. simpl in Hf.
  destruct (_folder_sync fuel (s ++ [d]) (r ++ [d]) log w) as [w1| |] eqn:E1;
    try discriminate.
  assert (S1 : stays (r ++ [d]) w w1) by (apply (folder_sync_stays fuel (s ++ [d]) _ log);
                                           by rewrite E1).
  pose proof (for_each_stays _ _ _ _ _ _ _ Hf) as S2.
  destruct S1 as [C1 (e1 & Hh1 & _)]. destruct S2 as [C2 (e2 & Hh2 & _)].
  assert (Hev : events_since w w' = e1 ++ e2).
  { apply events_since_app. by rewrite Hh2, Hh1, <- app_assoc. }
  rewrite Hev in Hff. apply failure_free_app in Hff as [Hff1 Hff2].
  rewrite <- (events_since_app _ _ _ Hh1) in Hff1.
  rewrite <- (events_since_app _ _ _ Hh2) in Hff2.
  apply confined_within in C1.
  destruct (IH w1) as [W Hsync]; [done| |done|done|].
  { intros d' Hd'. assert (d ≠ d') by (intros ->; done).
    eapply rooted_stable; [|apply Hroot; by apply list_elem_of_further].
    intros q. by eapply within_other_name. }
  split.
  - apply (within_names_trans r [d] names _ (files w1)); [|done].
    by apply within_to_names.
  - intros d' Hd'. apply elem_of_cons in Hd' as [->|Hd']; [|by apply Hsync].
    destruct (IHfuel (s ++ [d]) (r ++ [d]) w w1) as [k Hk];
      [by apply apart_child|apply Hroot, list_elem_of_here|done|done|].
    exists k. eapply in_sync_stable; [| |exact Hk].
    + intros q. rewrite <- app_assoc. by eapply within_names_source.
    + intros q. by eapply within_names_other.
Qed.
End level.

(** One level, from what is known of its entries once the call is over. *)
Lemma level_in_sync s r fs0 fs3 cmp :
  apart s r →
  fs0 !! s = Some Dir → fs0 !! r = Some Dir →
  dircmp_facts fs0 s r cmp →
  within_names r ((left_only cmp ++ diff_files cmp) ++ right_only cmp ++ common_dirs cmp)
    fs0 fs3 →
  (∀ n, n ∈ left_only cmp ++ diff_files cmp → copied fs3 s r n) →
  (∀ n, n ∈ right_only cmp → fs3 !! (r ++ [n]) = None) →
  (∀ d, d ∈ common_dirs cmp → ∃ k, in_sync k fs3 (s ++ [d]) (r ++ [d])) →
  ∃ k, in_sync k fs3 s r.
Proof.
  intros Ha Ds Dr F W HL HR HD.
  assert (Hsrc : ∀ q, fs3 !! (s ++ q) = fs0 !! (s ++ q))
    by (intros q; by eapply within_names_source).
  assert (Hr3 : fs3 !! r = Some Dir)
    by (rewrite <- Dr; eapply within_names_root; [done|by eexists]).
  assert (Hs3 : fs3 !! s = Some Dir).
  { specialize (Hsrc []). rewrite app_nil_r in Hsrc. congruence. }
  destruct (bound_all (λ k d, in_sync k fs3 (s ++ [d]) (r ++ [d])) (common_dirs cmp))
    as [K1 HK1]; [intros x k k'; apply in_sync_mono|done|].
  destruct (fs_height fs3) as [K2 HK2].
  exists (S (K1 `max` K2)). simpl. split; [done|]. split; [done|].
  intros x Hv.
  destruct (decide (x ∈ left_only cmp ++ diff_files cmp)) as [Hl|Hl];
    [|destruct (decide (x ∈ right_only cmp)) as [Hro|Hro];
      [|destruct (decide (x ∈ common_dirs cmp)) as [Hcd|Hcd]]].
  - specialize (HL x Hl). unfold copied in HL.
    destruct (fs3 !! (s ++ [x])) as [[d m|]|] eqn:Es; [| |done].
    + split; [by rewrite HL|]. split.
      * intros _. by eapply filecmp_cmp_same.
      * intros [Hk _]%phase2_dirs. congruence.
    + pose proof (HL []) as HL0. rewrite !app_nil_r, Es in HL0.
      split; [by rewrite HL0|]. split.
      * intros (? & ? & ? & ? & Hk & _)%phase2_files. congruence.
      * intros _. apply (in_sync_mono K2); [|lia].
        apply mirror_in_sync; [done|done|].
        intros q Hq. apply HK2 in Hq. rewrite length_app in Hq. lia.
  - pose proof (HR x Hro) as Hrx.
    apply (df_right_only _ _ _ _ F) in Hro as (_ & _ & Hsx).
    rewrite <- Hsrc in Hsx. split; [by rewrite Hrx, Hsx|]. split.
    + intros (? & ? & ? & ? & Hk & _)%phase2_files. congruence.
    + intros [Hk _]%phase2_dirs. congruence.
  - specialize (HK1 x Hcd). destruct K1 as [|K1]; [done|].
    pose proof HK1 as (Dsx & Drx & _).
    split; [by rewrite Dsx, Drx|]. split.
    + intros (? & ? & ? & ? & Hk & _)%phase2_files. congruence.
    + intros _. apply (in_sync_mono (S K1)); [done|lia].
  - assert (Hx : x ∉ (left_only cmp ++ diff_files cmp) ++ right_only cmp ++ common_dirs cmp).
    { intros [?|[?|?]%elem_of_app]%elem_of_app; done. }
    pose proof (within_names_other r _ x [] _ _ W Hx) as Hrx. rewrite !app_nil_r in Hrx.
    pose proof (Hsrc [x]) as Hsx.
    rewrite (phase2_kind_stable fs0 fs3), (filecmp_cmp_stable fs0 fs3), Hrx, Hsx by done.
    split; [|split].
    + destruct (fs0 !! (s ++ [x])) as [e1|] eqn:E1, (fs0 !! (r ++ [x])) as [e2|] eqn:E2;
        try done.
      * destruct Hl. apply elem_of_app. left. apply (df_left_only _ _ _ _ F).
        rewrite E1, E2. eauto.
      * destruct Hro. apply (df_right_only _ _ _ _ F). rewrite E1, E2. eauto.
    + intros Hk. apply filecmp_cmp_files; [done|]. intros Hc.
      destruct Hl. apply elem_of_app. right. by apply (df_diff_files _ _ _ _ F).
    + intros Hk. destruct Hcd. by apply (df_common_dirs _ _ _ _ F).
Qed.

Lemma dircmp_lists_apart fs s r cmp x :
  dircmp_facts fs s r cmp →
  x ∈ left_only cmp ++ diff_files cmp →
  (x ∉ right_only cmp) ∧ (x ∉ common_dirs cmp).
Proof.
  intros F [Hx|Hx]%elem_of_app.
  - apply (df_left_only _ _ _ _ F) in Hx as (_ & [e He] & Hn). split.
    + intros (_ & _ & Hs)%(df_right_only _ _ _ _ F). congruence.
    + intros (_ & [_ Hk]%phase2_dirs)%(df_common_dirs _ _ _ _ F). congruence.
  - apply (df_diff_files _ _ _ _ F) in Hx
      as (_ & (? & ? & ? & ? & Hs & Hr)%phase2_files & _). split.
    + intros (_ & _ & Hs')%(df_right_only _ _ _ _ F). congruence.
    + intros (_ & [Hk _]%phase2_dirs)%(df_common_dirs _ _ _ _ F). congruence.
Qed.

Lemma dircmp_right_not_dirs fs s r cmp x :
  dircmp_facts fs s r cmp → x ∈ right_only cmp → x ∉ common_dirs cmp.
Proof.
  intros F (_ & _ & Hs)%(df_right_only _ _ _ _ F).
  intros (_ & [Hk _]%phase2_dirs)%(df_common_dirs _ _ _ _ F). congruence.
Qed.

(** The convergence of a run without failure. *)
Lemma folder_sync_converges fuel s r log w w' :
  apart s r → rooted r (files w) →
  _folder_sync fuel s r log w = Returned w' →
  failure_free (events_since w w') →
  ∃ k, in_sync k (files w') s r.
Proof.
  revert s r w w'. induction fuel as [|fuel IH]; intros s r w w' Ha Hroot; [done|].
  simpl. destruct (os_path_exists (files w) s) eqn:Es; simpl; [|done].
  destruct (os_path_exists (files w) r) eqn:Er; simpl.
  2:{ destruct (shutil_copytree _ _ _ _) as [[] w1|e w1] eqn:Ec; [|done].
      intros [= <-] _.
      pose proof (copytree_stays s r false (_custom_print log (msg_no_replica s r) w)) as [C _].
      rewrite Ec in C. simpl in C.
      assert (Hsrc : ∀ q, files w1 !! (s ++ q) = files w !! (s ++ q))
        by (intros q; by eapply confined_source).
      assert (Hr : files w !! r = None).
      { apply eq_None_not_Some. intros Hr%exists_true_lookup. congruence. }
      apply mirror_in_sync_ex.
      - specialize (Hsrc []). rewrite app_nil_r in Hsrc. rewrite Hsrc.
        by apply shutil_copytree_ok_source in Ec.
      - intros q. rewrite Hsrc.
        apply (shutil_copytree_fresh _ _ _ _ _ Ec).
        + intros ->. destruct Ha as [_ Ha]. apply Ha. apply prefix_nil.
        + intros q'. simpl. specialize (Hroot [] q'). rewrite !app_nil_r in Hroot.
          by apply Hroot. }
  destruct (filecmp_dircmp _ _ _) as [e|cmp] eqn:Hc; [done|].
  apply dircmp_spec in Hc as (Ds & Dr & F).
  pose proof (reconciler_failure_free s r (left_only cmp ++ diff_files cmp) log w) as Hrf.
  pose proof (reconciler_stays s r (left_only cmp ++ diff_files cmp) log w) as [_ (e1 & Hh1 & _)].
  pose proof (reconciler_within s r (left_only cmp ++ diff_files cmp) log w) as W01.
  pose proof (reconciler_ok s r log (left_only cmp ++ diff_files cmp) w) as Hrok.
  destruct (_copy_new_modified_files _ _ _ _ _) as [b1 w1]. simpl in *.
  destruct b1; simpl.
  2:{ intros [= <-] Hff. by apply Hrf in Hff. }
  clear Hrf.
  pose proof (purger_failure_free r (right_only cmp) log w1) as Hpf.
  pose proof (purger_stays r (right_only cmp) log w1) as [_ (e2 & Hh2 & _)].
  pose proof (purger_within r (right_only cmp) log w1) as W12.
  pose proof (purger_ok r log (right_only cmp) w1) as Hpok.
  destruct (_delete_locations _ _ _ _) as [b2 w2]. simpl in *.
  destruct b2; simpl.
  2:{ intros [= <-] Hff.
      assert (Hev : events_since w w2 = e1 ++ e2)
        by (apply events_since_app; by rewrite Hh2, Hh1, <- app_assoc).
      rewrite Hev in Hff. apply failure_free_app in Hff as [_ Hff].
      rewrite <- (events_since_app _ _ _ Hh2) in Hff. by apply Hpf in Hff. }
  clear Hpf. intros Hloop Hff.
  pose proof (for_each_stays _ _ _ _ _ _ _ Hloop) as [_ (e3 & Hh3 & _)].
  assert (Hev : events_since w w' = e1 ++ e2 ++ e3)
    by (apply events_since_app; by rewrite Hh3, Hh2, Hh1, <- !app_assoc).
  rewrite Hev in Hff. apply failure_free_app in Hff as [_ Hff].
  apply failure_free_app in Hff as [_ Hff].
  rewrite <- (events_since_app _ _ _ Hh3) in Hff.
  assert (Hsrc1 : ∀ q, files w1 !! (s ++ q) = files w !! (s ++ q))
    by (intros q; by eapply within_names_source).
  assert (Hsrc2 : ∀ q, files w2 !! (s ++ q) = files w1 !! (s ++ q))
    by (intros q; by eapply within_names_source).
  destruct (loop_converges fuel log IH s r (common_dirs cmp) w2 w') as [W23 Hsync];
    [done|apply (df_nodup_dirs _ _ _ _ F)| |done|done|].
  { intros d Hd. apply rooted_child with (d := d) in Hroot.
    eapply rooted_stable; [|exact Hroot]. intros q.
    assert (d ∉ left_only cmp ++ diff_files cmp)
      by (intros Hx; by apply (dircmp_lists_apart _ _ _ _ _ F) in Hx as [_ Hx]).
    assert (d ∉ right_only cmp)
      by (intros Hx; by apply (dircmp_right_not_dirs _ _ _ _ _ F) in Hx).
    rewrite (within_names_other r _ d q _ _ W12) by done.
    by apply (within_names_other r _ d q _ _ W01). }
  assert (Hsrc3 : ∀ q, files w' !! (s ++ q) = files w2 !! (s ++ q))
    by (intros q; by eapply within_names_source).
  eapply (level_in_sync s r (files w) (files w') cmp); try done.
  - eapply within_names_trans; [exact W01|].
    eapply within_names_trans; [exact W12|exact W23].
  - intros n Hn. destruct (dircmp_lists_apart _ _ _ _ _ F Hn) as [Hn1 Hn2].
    eapply copied_stable;
      [| |eapply copied_stable; [| |eapply Hrok; [done|apply (df_nodup_copy _ _ _ _ F)| |done|done]]].
    + intros q. rewrite <- app_assoc. apply Hsrc3.
    + intros q. by apply (within_names_other r _ n q _ _ W23).
    + intros q. rewrite <- app_assoc. apply Hsrc2.
    + intros q. by apply (within_names_other r _ n q _ _ W12).
    + intros n' [Hn'|Hn']%elem_of_app.
      * left. apply (df_left_only _ _ _ _ F) in Hn' as (_ & _ & Hn').
        by apply rooted_fresh.
      * right. by apply (df_diff_files _ _ _ _ F) in Hn' as (_ & Hn' & _).
  - intros n Hn. pose proof (dircmp_right_not_dirs _ _ _ _ _ F Hn) as Hn2.
    pose proof (within_names_other r _ n [] _ _ W23 Hn2) as Hst.
    rewrite !app_nil_r in Hst. rewrite Hst.
    eapply Hpok; [apply (df_nodup_right _ _ _ _ F)|done|done].
Qed.

(** ** The recursion ends *)

(** On folders that do not contain one another the recursion goes no deeper
    than the source tree: a budget above its height is never used up. *)
Lemma folder_sync_terminates fuel k s r log w :
  apart s r →
  (∀ q, is_Some (files w !! (s ++ q)) → (length q < k)%nat) →
  (k < fuel)%nat →
  _folder_sync fuel s r log w ≠ OutOfFuel.
Proof.
  revert k s r w. induction fuel as [|fuel IH]; intros k s r w Ha Hk Hlt; [lia|].
  simpl. destruct (os_path_exists (files w) s) eqn:Es; simpl; [|done].
  assert (Hpos : (0 < k)%nat).
  { apply exists_true_lookup in Es. specialize (Hk []). rewrite app_nil_r in Hk. auto. }
  assert (Hloop : ∀ names w2, stays r w w2 →
            for_each (λ n, _folder_sync fuel (s ++ [n]) (r ++ [n]) log) names w2
            ≠ OutOfFuel).
  { induction names as [|d names IHn]; intros w2 S2; simpl; [done|].
    destruct (_folder_sync fuel (s ++ [d]) (r ++ [d]) log w2) as [w3|e w3|] eqn:E; [|done|].
    - apply IHn. eapply stays_trans; [exact S2|].
      eapply stays_child, (folder_sync_stays fuel (s ++ [d])). by rewrite E.
    - exfalso. revert E. apply (IH (pred k)); [by apply apart_child| |].
      + intros q Hq. rewrite <- app_assoc in Hq.
        destruct S2 as [C2 _]. rewrite (confined_source s r _ _ _ C2 Ha) in Hq.
        apply Hk in Hq. simpl in Hq. lia.
      + lia. }
  destruct (os_path_exists (files w) r); simpl.
  2:{ by destruct (shutil_copytree _ _ _ _) as [[] w1|e w1]. }
  destruct (filecmp_dircmp _ _ _) as [e|cmp]; [done|].
  pose proof (reconciler_stays s r (left_only cmp ++ diff_files cmp) log w) as S1.
  destruct (_copy_new_modified_files _ _ _ _ _) as [b1 w1]. simpl in *.
  destruct b1; simpl; [|done].
  pose proof (purger_stays r (right_only cmp) log w1) as S2.
  destruct (_delete_locations _ _ _ _) as [b2 w2]. simpl in *.
  destruct b2; simpl; [|done].
  apply Hloop. by eapply stays_trans.
Qed.

Lemma folder_sync_total s r log w :
  apart s r →
  ∃ k, ∀ fuel, (k < fuel)%nat → _folder_sync fuel s r log w ≠ OutOfFuel.
Proof.
  intros Ha. destruct (fs_height (files w)) as [k Hk]. exists k. intros fuel Hlt.
  apply (folder_sync_terminates fuel k); [done| |done].
  intros q Hq. apply Hk in Hq. rewrite length_app in Hq. lia.
Qed.

(** ** Running twice *)

Lemma well_formed_rooted r fs : well_formed fs → rooted r fs.
Proof.
  intros Hwf q q' Hn. destruct q' as [|x q']; [by rewrite app_nil_r|].
  apply eq_None_not_Some. intros Hs. apply Hwf in Hs; [congruence|done].
Qed.

Lemma well_formedb_true fs : well_formedb fs = true → well_formed fs.
Proof.
  unfold well_formedb. rewrite forallb_forall. intros H p q Hq [e He].
  specialize (H (p ++ q)). rewrite forallb_forall in H.
  assert (Hin : In (p ++ q) (map_to_list fs).*1).
  { apply list_elem_of_In, list_elem_of_fmap. exists (p ++ q, e).
    split; [done|]. by apply elem_of_map_to_list. }
  specialize (H Hin (length p)).
  rewrite take_app_length in H. apply bool_decide_eq_true in H; [done|].
  apply in_seq. rewrite length_app. destruct q; [done|]. simpl. lia.
Qed.

(** C2, as the code has it.  When a run has ended without reporting a
    failure on any entry, and neither folder lies inside the other, a second
    run on the world the first one left returns in that same world: no
    entry of the file system has changed, nothing has been printed, nothing
    has been appended to the log file.  (The second run may go deeper than
    the first, into the directories the first one copied whole, and its
    budget must allow for that.) *)
Theorem second_run_does_nothing (fuel : nat) (s r : path) (log : string) (w w1 : world) :
  apart s r →
  well_formed (files w) →
  _folder_sync fuel s r log w = Returned w1 →
  failure_free (events_since w w1) →
  ∃ k, ∀ fuel2, (k ≤ fuel2)%nat → _folder_sync fuel2 s r log w1 = Returned w1.
Proof.
  intros Ha Hwf Hrun Hff.
  destruct (folder_sync_converges fuel s r log w w1) as [k Hk];
    [done|by apply well_formed_rooted|done|done|].
  exists k. intros fuel2 Hle. by eapply in_sync_noop.
Qed.

Lemma second_run_does_nothing_witness :
  ∃ k, ∀ fuel2, (k ≤ fuel2)%nat →
    _folder_sync fuel2 ["s"] ["r"] "sync.log" w_demo_synced = Returned w_demo_synced.
Proof.
  apply (second_run_does_nothing 2 ["s"] ["r"] "sync.log" w_demo w_demo_synced).
  - split; intros [k Hk]; discriminate Hk.
  - apply well_formedb_true. vm_compute. reflexivity.
  - vm_compute. reflexivity.
  - vm_compute. repeat constructor.
Defined.

(** C2, as stated, fails on the two runs given here.  In the first file
    system the replica's file is protected: the first run could not copy
    it, and the second run announces the copy and logs the exception again.
    In the second one the replica folder lies inside the source folder: the
    first run, without failure, copies the source into it, and the second
    run, on a source that has this copy in it, copies again. *)
Lemma second_run_logs_again :
  (∃ w1 w2,
     _folder_sync 1 ["s"] ["r"] "sync.log" w_changed_locked = Returned w1 ∧
     _folder_sync 1 ["s"] ["r"] "sync.log" w1 = Returned w2 ∧
     log_of (events_since w1 w2)
     = ["Copying file from /s/a.txt to /r/a.txt";
        "Exception while copying modified file/folder a.txt: "
        +:+ "[Errno 13] Permission denied: /r/a.txt"]) ∧
  (∃ w1 w2,
     _folder_sync 1 ["s"] ["s"; "r"] "sync.log" (mk_world fs_inside ∅) = Returned w1 ∧
     failure_free (events_since (mk_world fs_inside ∅) w1) ∧
     _folder_sync 1 ["s"] ["s"; "r"] "sync.log" w1 = Returned w2 ∧
     log_of (events_since w1 w2) = ["Copying folder from /s/r to /s/r/r"] ∧
     files w1 !! ["s"; "r"; "r"] = None ∧
     files w2 !! ["s"; "r"; "r"] = Some Dir).
Proof.
  split.
  - eexists _, _. split; [vm_compute; reflexivity|].
    split; [vm_compute; reflexivity|]. vm_compute. reflexivity.
  - eexists _, _. split; [vm_compute; reflexivity|].
    split; [vm_compute; repeat constructor|].
    split; [vm_compute; reflexivity|].
    split; [vm_compute; reflexivity|].
    split; vm_compute; reflexivity.
Qed.

(** C1, at the failing input.  The source folder holds a file named tags
    and a directory named .git, the replica folder is empty.  The call
    returns in the world it started from: nothing was copied, nothing was
    printed, no failure was reported; and the replica folder has neither
    entry. *)
Theorem ignored_names_are_not_mirrored :
  _folder_sync 2 ["s"] ["r"] "sync.log" (mk_world fs_ignored ∅)
  = Returned (mk_world fs_ignored ∅) ∧
  fs_ignored !! ["s"; "tags"] = Some (File "main" 4) ∧
  fs_ignored !! ["r"; "tags"] = None ∧
  fs_ignored !! ["s"; ".git"] = Some Dir ∧
  fs_ignored !! ["r"; ".git"] = None.
Proof. repeat split; vm_compute; reflexivity. Qed.

(** * Further properties *)

(** ** Further properties of the orchestrator *)

Lemma for_each_within_names fuel s r log names w w' :
  final (for_each (λ n, _folder_sync fuel (s ++ [n]) (r ++ [n]) log) names w) = Some w' →
  within_names r names (files w) (files w').
Proof.
  revert w. induction names as [|x names IH]; intros w; simpl.
  - intros [= <-]. apply within_names_refl.
  - destruct (_folder_sync fuel (s ++ [x]) (r ++ [x]) log w) as [w1|e w1|] eqn:E; simpl.
    + intros H. apply (within_names_trans r [x] names _ (files w1)); [|by apply IH].
      apply within_to_names, confined_within.
      apply (folder_sync_stays fuel (s ++ [x]) (r ++ [x]) log w w1). by rewrite E.
    + intros [= <-]. apply (within_names_trans r [x] names _ (files w1));
        [|apply within_names_refl].
      apply within_to_names, confined_within.
      apply (folder_sync_stays fuel (s ++ [x]) (r ++ [x]) log w w1). by rewrite E.
    + done.
Qed.

(** On two folders that were compared, a call changes the replica folder
    only under the names the comparison reports as new, changed, left over
    or common directories. *)
Lemma level_within_names fuel s r log w cmp w' :
  filecmp_dircmp (files w) s r = inr cmp →
  final (_folder_sync (S fuel) s r log w) = Some w' →
  within_names r
    ((left_only cmp ++ diff_files cmp) ++ right_only cmp ++ common_dirs cmp)
    (files w) (files w').
Proof.
  intros Hc. pose proof (dircmp_spec _ _ _ _ Hc) as (Ds & Dr & _).
  rewrite (folder_sync_level _ _ _ _ _ cmp);
    [|apply exists_true_lookup; by eexists..|done].
  cbv zeta.
  pose proof (reconciler_within s r (left_only cmp ++ diff_files cmp) log w) as Hrec.
  destruct (_copy_new_modified_files _ _ _ _ _) as [b1 w1]. simpl in *.
  destruct b1; simpl.
  2:{ intros [= <-]. eapply within_names_trans; [done|apply within_names_refl]. }
  pose proof (purger_within r (right_only cmp) log w1) as Hpur.
  destruct (_delete_locations _ _ _ _) as [b2 w2]. simpl in *.
  destruct b2; simpl; intros Hf; (eapply within_names_trans; [done|]).
  - eapply within_names_trans; [done|]. by eapply for_each_within_names.
  - injection Hf as <-. eapply within_names_trans; [done|apply within_names_refl].
Qed.

(** When the replica folder exists, whatever way the call ends, the
    entries of the replica folder it may have changed are those [dircmp]
    reports. *)
Lemma unreported_untouched fuel s r log w w' x :
  is_Some (files w !! r) →
  final (_folder_sync (S fuel) s r log w) = Some w' →
  (∀ cmp, filecmp_dircmp (files w) s r = inr cmp →
     x ∉ (left_only cmp ++ diff_files cmp) ++ right_only cmp ++ common_dirs cmp) →
  ∀ q, files w' !! ((r ++ [x]) ++ q) = files w !! ((r ++ [x]) ++ q).
Proof.
  intros Hr Hf Hx q.
  destruct (filecmp_dircmp (files w) s r) as [e|cmp] eqn:Hc.
  - revert Hf. simpl. destruct (os_path_exists (files w) s); simpl; [|by intros [= <-]].
    apply exists_true_lookup in Hr. rewrite Hr, Hc. simpl. by intros [= <-].
  - eapply within_names_other; [by eapply level_within_names|by apply Hx].
Qed.

(** X1.  A name that [dircmp] ignores is never touched in the replica
    folder: whatever is there under that name stays, however the call
    ends. *)
Theorem ignored_replica_entries_stay (fuel : nat) (s r : path) (log : string)
    (w w' : world) (x : string) :
  is_Some (files w !! r) →
  ¬ visible x →
  final (_folder_sync (S fuel) s r log w) = Some w' →
  ∀ q, files w' !! ((r ++ [x]) ++ q) = files w !! ((r ++ [x]) ++ q).
Proof.
  intros Hr Hx Hf. eapply unreported_untouched; [done..|].
  intros cmp (_ & _ & F)%dircmp_spec Hin. apply Hx.
  rewrite !elem_of_app in Hin. destruct Hin as [[Hin|Hin]|[Hin|Hin]].
  - by apply (df_left_only _ _ _ _ F) in Hin as [? _].
  - by apply (df_diff_files _ _ _ _ F) in Hin as [? _].
  - by apply (df_right_only _ _ _ _ F) in Hin as [? _].
  - by apply (df_common_dirs _ _ _ _ F) in Hin as [? _].
Qed.

Lemma ignored_replica_entries_stay_witness :
  files w_unseen_synced !! ((["r"] ++ [".git"]) ++ ["config"])
  = files w_unseen !! ((["r"] ++ [".git"]) ++ ["config"]).
Proof.
  apply (ignored_replica_entries_stay 1 ["s"] ["r"] "sync.log" w_unseen w_unseen_synced).
  - exists Dir. vm_compute. reflexivity.
  - intros Hv. apply Hv. vm_compute. do 5 apply list_elem_of_further. apply list_elem_of_here.
  - vm_compute. reflexivity.
Defined.

(** X2.  A file of the replica folder that has the size and the modification
    time of the source's file of that name is left as it is, also when
    its content is another: the comparison is the shallow one of
    [filecmp.cmp]. *)
Theorem same_size_and_time_is_not_copied (fuel : nat) (s r : path) (log : string)
    (w w' : world) (x d1 d2 : string) (m : nat) :
  well_formed (files w) →
  files w !! (s ++ [x]) = Some (File d1 m) →
  files w !! (r ++ [x]) = Some (File d2 m) →
  String.length d1 = String.length d2 →
  final (_folder_sync (S fuel) s r log w) = Some w' →
  files w' !! (r ++ [x]) = Some (File d2 m).
Proof.
  intros Hwf Hs Hr Hlen Hf.
  assert (files w' !! ((r ++ [x]) ++ []) = files w !! ((r ++ [x]) ++ [])) as Heq.
  { eapply unreported_untouched; [|done|].
    - exists Dir. apply (Hwf r [x]); [done|by eexists].
    - intros cmp (_ & _ & F)%dircmp_spec Hin.
      assert (phase2_kind (files w) s r x = BothFiles) as Hk
        by (unfold phase2_kind; by rewrite Hs, Hr).
      assert (filecmp_cmp (files w) (s ++ [x]) (r ++ [x]) = Some true) as Hcmp.
      { unfold filecmp_cmp. rewrite Hs, Hr. rewrite decide_True; [done|]. by rewrite Hlen. }
      rewrite !elem_of_app in Hin. destruct Hin as [[Hin|Hin]|[Hin|Hin]].
      + apply (df_left_only _ _ _ _ F) in Hin as (_ & _ & Hn). congruence.
      + apply (df_diff_files _ _ _ _ F) in Hin as (_ & _ & Hn). congruence.
      + apply (df_right_only _ _ _ _ F) in Hin as (_ & _ & Hn). congruence.
      + apply (df_common_dirs _ _ _ _ F) in Hin as (_ & Hn). congruence. }
  rewrite app_nil_r in Heq. by rewrite Heq.
Qed.

Lemma same_size_and_time_is_not_copied_witness :
  files w_unseen_synced !! (["r"] ++ ["b"]) = Some (File "old" 7).
Proof.
  apply (same_size_and_time_is_not_copied 1 ["s"] ["r"] "sync.log" w_unseen
           w_unseen_synced "b" "new" "old" 7).
  - apply well_formedb_true. vm_compute. reflexivity.
  - vm_compute. reflexivity.
  - vm_compute. reflexivity.
  - reflexivity.
  - vm_compute. reflexivity.
Defined.

(** X3.  Where one side has a file and the other a directory of the same
    name, the replica's entry, with all that is below it, is left as it
    is. *)
Theorem type_clash_is_left_alone (fuel : nat) (s r : path) (log : string)
    (w w' : world) (x : string) :
  well_formed (files w) →
  phase2_kind (files w) s r x = Funny →
  is_Some (files w !! (s ++ [x])) →
  is_Some (files w !! (r ++ [x])) →
  final (_folder_sync (S fuel) s r log w) = Some w' →
  ∀ q, files w' !! ((r ++ [x]) ++ q) = files w !! ((r ++ [x]) ++ q).
Proof.
  intros Hwf Hk [es Hs] [er Hr] Hf. eapply unreported_untouched; [|done|].
  - exists Dir. apply (Hwf r [x]); [done|by eexists].
  - intros cmp (_ & _ & F)%dircmp_spec Hin.
    rewrite !elem_of_app in Hin. destruct Hin as [[Hin|Hin]|[Hin|Hin]].
    + apply (df_left_only _ _ _ _ F) in Hin as (_ & _ & Hn). congruence.
    + apply (df_diff_files _ _ _ _ F) in Hin as (_ & Hn & _). congruence.
    + apply (df_right_only _ _ _ _ F) in Hin as (_ & _ & Hn). congruence.
    + apply (df_common_dirs _ _ _ _ F) in Hin as (_ & Hn). congruence.
Qed.

Lemma type_clash_is_left_alone_witness :
  files w_unseen_synced !! ((["r"] ++ ["c"]) ++ ["inner"])
  = files w_unseen !! ((["r"] ++ ["c"]) ++ ["inner"]).
Proof.
  apply (type_clash_is_left_alone 1 ["s"] ["r"] "sync.log" w_unseen w_unseen_synced "c").
  - apply well_formedb_true. vm_compute. reflexivity.
  - vm_compute. reflexivity.
  - eexists. vm_compute. reflexivity.
  - eexists. vm_compute. reflexivity.
  - vm_compute. reflexivity.
Defined.

(** ** The first run, into a replica folder that is not there *)






(** ** The recursion ends, and folders that are equal already *)

(** X5.  The recursion ends within the tree: on folders that do not contain
    one another, a call with a budget above the length of the longest path
    of the file system, by more than one, does not use it up: it ends, by
    returning or by raising. *)
Theorem recursion_ends_within_the_tree (fuel : nat) (s r : path) (log : string)
    (w : world) :
  apart s r →
  (S (depth (files w)) < fuel)%nat →
  is_Some (final (_folder_sync fuel s r log w)).
Proof.
  intros Ha Hlt.
  assert (_folder_sync fuel s r log w ≠ OutOfFuel) as Hne.
  { apply (folder_sync_terminates fuel (S (depth (files w)))); [done| |done].
    intros q [e He]. apply Nat.lt_succ_r.
    transitivity (length (s ++ q)); [rewrite length_app; lia|].
    apply max_list_elem_of_le, list_elem_of_fmap. exists (s ++ q). split; [done|].
    apply list_elem_of_fmap. exists (s ++ q, e). split; [done|].
    by apply elem_of_map_to_list. }
  destruct (_folder_sync fuel s r log w); [by eexists..|done].
Qed.

Lemma recursion_ends_within_the_tree_witness :
  is_Some (final (_folder_sync 5 ["s"] ["r"] "sync.log" w_locked)).
Proof.
  apply (recursion_ends_within_the_tree 5 ["s"] ["r"] "sync.log" w_locked).
  - split; intros [k Hk]; discriminate Hk.
  - vm_compute. lia.
Defined.

(** X6.  When the replica folder holds what the source folder holds, entry
    for entry, a call returns in the world it started from: nothing is
    copied, removed, printed or logged. *)
Theorem equal_folders_are_left_alone (s r : path) (log : string) (w : world) :
  files w !! s = Some Dir →
  (∀ q, files w !! (r ++ q) = files w !! (s ++ q)) →
  ∃ k, ∀ fuel, (k ≤ fuel)%nat → _folder_sync fuel s r log w = Returned w.
Proof.
  intros Hs Hm. destruct (mirror_in_sync_ex (files w) s r Hs Hm) as [k Hk].
  exists k. intros fuel Hle. by eapply in_sync_noop.
Qed.

Lemma equal_folders_are_left_alone_witness :
  ∃ k, ∀ fuel, (k ≤ fuel)%nat →
    _folder_sync fuel ["s"] ["s"] "sync.log" w_demo = Returned w_demo.
Proof.
  apply (equal_folders_are_left_alone ["s"] ["s"] "sync.log" w_demo).
  - vm_compute. reflexivity.
  - reflexivity.
Defined.

(** ** Agreement, path by path *)

Lemma in_sync_level k fs s r (q : path) :
  in_sync k fs s r →
  Forall visible q →
  (∀ q1, q1 `prefix_of` q → fs !! (s ++ q1) = Some Dir ∧ fs !! (r ++ q1) = Some Dir) →
  level_agrees fs (s ++ q) (r ++ q).
Proof.
  revert k s r. induction q as [|x q IH]; intros k s r Hin Hv Hreach.
  - rewrite !app_nil_r. destruct k as [|k]; [done|]. destruct Hin as (_ & _ & Hx).
    intros x Hvx. destruct (Hx x Hvx) as (? & ? & _). done.
  - destruct k as [|k]; [done|]. destruct Hin as (_ & _ & Hx).
    apply Forall_cons in Hv as [Hvx Hv].
    destruct (Hx x Hvx) as (_ & _ & Hd).
    destruct (Hreach [x]) as [Ds Dr]; [by apply prefix_cons, prefix_nil|].
    change (x :: q) with ([x] ++ q). rewrite !app_assoc. apply (IH k); [|done|].
    + apply Hd. unfold phase2_kind. by rewrite Ds, Dr.
    + intros q1 Hq1. rewrite <- !app_assoc. apply (Hreach (x :: q1)). by apply prefix_cons.
Qed.

(** X7.  After a call that returned and reported no failure of an entry, in
    every directory the two folders have in common, the names [dircmp]
    looks at are the same on both sides, and the files of the same name are
    equal for [filecmp.cmp]. *)
Theorem clean_run_brings_agreement (fuel : nat) (s r : path) (log : string)
    (w w' : world) (q : path) :
  apart s r →
  well_formed (files w) →
  _folder_sync fuel s r log w = Returned w' →
  failure_free (events_since w w') →
  Forall visible q →
  (∀ q1, q1 `prefix_of` q →
     files w' !! (s ++ q1) = Some Dir ∧ files w' !! (r ++ q1) = Some Dir) →
  level_agrees (files w') (s ++ q) (r ++ q).
Proof.
  intros Ha Hwf Hrun Hff Hv Hreach.
  destruct (folder_sync_converges fuel s r log w w') as [k Hk];
    [done|by apply well_formed_rooted|done|done|].
  by eapply in_sync_level.
Qed.

Lemma clean_run_brings_agreement_witness :
  level_agrees (files w_demo_synced) (["s"] ++ ["d"]) (["r"] ++ ["d"]).
Proof.
  apply (clean_run_brings_agreement 2 ["s"] ["r"] "sync.log" w_demo w_demo_synced ["d"]).
  - split; intros [k Hk]; discriminate Hk.
  - apply well_formedb_true. vm_compute. reflexivity.
  - vm_compute. reflexivity.
  - vm_compute. repeat constructor.
  - repeat constructor. apply (bool_decide_unpack _). vm_compute. reflexivity.
  - intros q1 [k Hk]. destruct q1 as [|a [|b q1]]; [| |by destruct q1].
    + split; vm_compute; reflexivity.
    + injection Hk as <- _. split; vm_compute; reflexivity.
Defined.

(** ** What arrives in the replica folder *)

(** X8.  After a call on two directories that returned and reported no
    failure, an entry of the source folder with a name that [dircmp] looks
    at (none of the names it ignores), which was new, or was a file that had
    changed, is in the replica folder as it is in the source folder: a file
    with its content and modification time, a directory with the whole of
    its subtree, the names [dircmp] ignores inside it included. *)
Theorem new_and_changed_entries_are_copied (fuel : nat) (s r : path) (log : string)
    (w w' : world) (x : string) :
  apart s r →
  well_formed (files w) →
  files w !! s = Some Dir →
  files w !! r = Some Dir →
  visible x →
  (is_Some (files w !! (s ++ [x])) ∧ files w !! (r ++ [x]) = None)
  ∨ (phase2_kind (files w) s r x = BothFiles
     ∧ filecmp_cmp (files w) (s ++ [x]) (r ++ [x]) = Some false) →
  _folder_sync (S fuel) s r log w = Returned w' →
  failure_free (events_since w w') →
  copied (files w') s r x
  ∧ ∀ q, files w' !! ((s ++ [x]) ++ q) = files w !! ((s ++ [x]) ++ q).
Proof.
  intros Ha Hwf Ds Dr Hv Hx Hrun Hff.
  destruct (dircmp_dirs _ _ _ Ds Dr) as [cmp Hc].
  pose proof (dircmp_spec _ _ _ _ Hc) as (_ & _ & F).
  assert (x ∈ left_only cmp ++ diff_files cmp) as Hin.
  { apply elem_of_app. destruct Hx as [[Hs Hr]|[Hk Hcmp]].
    - left. by apply (df_left_only _ _ _ _ F).
    - right. by apply (df_diff_files _ _ _ _ F). }
  destruct (dircmp_lists_apart _ _ _ _ _ F Hin) as [Hn1 Hn2].
  assert (x ∉ right_only cmp ++ common_dirs cmp) as Hn
    by (intros [?|?]%elem_of_app; done).
  revert Hrun Hff.
  rewrite (folder_sync_level _ _ _ _ _ cmp); [|apply exists_true_lookup; by eexists..|done].
  cbv zeta.
  pose proof (reconciler_failure_free s r (left_only cmp ++ diff_files cmp) log w) as Hrf.
  pose proof (reconciler_within s r (left_only cmp ++ diff_files cmp) log w) as W01.
  pose proof (reconciler_ok s r log (left_only cmp ++ diff_files cmp) w) as Hrok.
  destruct (_copy_new_modified_files _ _ _ _ _) as [b1 w1]. simpl in *.
  destruct b1; simpl.
  2:{ intros [= <-] Hff. by apply Hrf in Hff. }
  clear Hrf.
  assert (copied (files w1) s r x) as Hcop.
  { eapply Hrok; [done|apply (df_nodup_copy _ _ _ _ F)| |done|done].
    intros n' [Hn'|Hn']%elem_of_app.
    - left. apply (df_left_only _ _ _ _ F) in Hn' as (_ & _ & Hn').
      apply rooted_fresh; [by apply well_formed_rooted|done].
    - right. by apply (df_diff_files _ _ _ _ F) in Hn' as (_ & Hn' & _). }
  assert (∀ q, files w1 !! (s ++ q) = files w !! (s ++ q)) as Hs1
    by (intros q; by eapply within_names_source).
  pose proof (purger_within r (right_only cmp) log w1) as W12.
  destruct (_delete_locations _ _ _ _) as [b2 w2]. simpl in *.
  intros Hrun _.
  assert (within_names r (right_only cmp ++ common_dirs cmp) (files w1) (files w')) as W.
  { destruct b2; simpl in Hrun.
    - eapply within_names_trans; [done|].
      eapply for_each_within_names. by rewrite Hrun.
    - injection Hrun as <-. eapply within_names_trans; [done|apply within_names_refl]. }
  assert (∀ q, files w' !! (s ++ q) = files w1 !! (s ++ q)) as Hs2
    by (intros q; by eapply within_names_source).
  split.
  - eapply copied_stable; [| |exact Hcop].
    + intros q. rewrite <- app_assoc. apply Hs2.
    + intros q. by apply (within_names_other r _ x q _ _ W).
  - intros q. rewrite <- app_assoc. by rewrite Hs2, Hs1.
Qed.

Lemma new_and_changed_entries_are_copied_witness :
  copied (files w_demo_synced) ["s"] ["r"] "d"
  ∧ ∀ q, files w_demo_synced !! ((["s"] ++ ["d"]) ++ q)
         = files w_demo !! ((["s"] ++ ["d"]) ++ q).
Proof.
  apply (new_and_changed_entries_are_copied 1 ["s"] ["r"] "sync.log" w_demo w_demo_synced "d").
  - split; intros [k Hk]; discriminate Hk.
  - apply well_formedb_true. vm_compute. reflexivity.
  - vm_compute. reflexivity.
  - vm_compute. reflexivity.
  - apply (bool_decide_unpack _). vm_compute. reflexivity.
  - left. split; [eexists|]; vm_compute; reflexivity.
  - vm_compute. reflexivity.
  - vm_compute. repeat constructor.
Defined.

(** ** A file where a folder is expected *)

(** X9.  The source path is only tested for existence.  When it is a file,
    the call raises [NotADirectoryError] without having changed anything; it
    has printed and logged nothing when the replica path exists, and the line
    about a missing replica folder when it does not. *)
Theorem source_that_is_a_file_raises (fuel : nat) (s r : path) (log : string)
    (w : world) (d : string) (m : nat) :
  files w !! s = Some (File d m) →
  ∃ w', _folder_sync (S fuel) s r log w = Raised (NotADirectoryError s) w' ∧
        files w' = files w ∧
        log_of (events_since w w')
        = if os_path_exists (files w) r then [] else [msg_no_replica s r].
Proof.
  intros Hs. simpl.
  rewrite (proj2 (exists_true_lookup _ _)) by (by eexists). simpl.
  destruct (os_path_exists (files w) r); simpl.
  - unfold filecmp_dircmp, os_listdir. rewrite Hs.
    eexists. split; [done|]. split; [done|].
    unfold events_since. by rewrite drop_all.
  - unfold shutil_copytree, os_listdir. simpl. rewrite Hs.
    eexists. split; [done|]. split; [done|].
    unfold events_since. simpl. rewrite <- !app_assoc. by rewrite drop_app_length.
Qed.

Lemma source_that_is_a_file_raises_witness :
  ∃ w', _folder_sync 1 ["s"; "a.txt"] ["r"] "sync.log" w_demo
        = Raised (NotADirectoryError ["s"; "a.txt"]) w' ∧
        files w' = files w_demo ∧
        log_of (events_since w_demo w')
        = if os_path_exists (files w_demo) ["r"] then []
          else [msg_no_replica ["s"; "a.txt"] ["r"]].
Proof.
  apply (source_that_is_a_file_raises 0 ["s"; "a.txt"] ["r"] "sync.log" w_demo "alpha" 10).
  vm_compute. reflexivity.
Defined.

(** ** The reconciler and the purger on their own *)

Lemma os_remove_shrinks p w k :
  files (world_of (os_remove p w)) !! k = files w !! k
  ∨ files (world_of (os_remove p w)) !! k = None.
Proof.
  unfold os_remove. simpl. destruct (files w !! p) as [[]|]; simpl; try by left.
  case_decide; simpl; [by left|].
  destruct (decide (p = k)) as [->|Hne].
  - right. apply lookup_delete_eq.
  - left. by apply lookup_delete_ne.
Qed.

Lemma shutil_rmtree_shrinks p w k :
  files (world_of (shutil_rmtree p w)) !! k = files w !! k
  ∨ files (world_of (shutil_rmtree p w)) !! k = None.
Proof.
  unfold shutil_rmtree. simpl. destruct (files w !! p) as [[]|]; simpl; try by left.
  destruct (elements _); simpl; [|by left].
  destruct (filter _ (files w) !! k) as [e|] eqn:E; [left|by right].
  by apply map_lookup_filter_Some in E as [-> _].
Qed.

Lemma delete_entry_shrinks r log b w n k :
  files (delete_entry r log (b, w) n).2 !! k = files w !! k
  ∨ files (delete_entry r log (b, w) n).2 !! k = None.
Proof.
  unfold delete_entry, delete_attempt. simpl.
  set (w0 := _custom_print log _ w). set (w1 := _custom_print log _ w).
  destruct (os_path_isdir _ _).
  - pose proof (shutil_rmtree_shrinks (r ++ [n]) w0 k) as H.
    by destruct (shutil_rmtree _ _).
  - pose proof (os_remove_shrinks (r ++ [n]) w1 k) as H.
    by destruct (os_remove _ _).
Qed.

Lemma purger_shrinks r log names b w k :
  files (fold_left (delete_entry r log) names (b, w)).2 !! k = files w !! k
  ∨ files (fold_left (delete_entry r log) names (b, w)).2 !! k = None.
Proof.
  revert b w. induction names as [|n names IH]; intros b w; simpl; [by left|].
  pose proof (delete_entry_shrinks r log b w n k) as H1.
  destruct (delete_entry r log (b, w) n) as [b1 w1]. simpl in H1.
  destruct (IH b1 w1) as [H2|H2]; [|by right].
  rewrite H2. done.
Qed.

Lemma delete_missing_fails r log b w n :
  files w !! (r ++ [n]) = None → (delete_entry r log (b, w) n).1 = false.
Proof.
  intros Hn. unfold delete_entry, delete_attempt, os_path_isdir. simpl.
  rewrite bool_decide_eq_false_2 by (by rewrite Hn).
  unfold os_remove. simpl. by rewrite Hn.
Qed.

Lemma purger_missing_fails r log names b w n :
  n ∈ names → files w !! (r ++ [n]) = None →
  (fold_left (delete_entry r log) names (b, w)).1 = false.
Proof.
  revert b w. induction names as [|m names IH]; intros b w Hin Hn; [by apply elem_of_nil in Hin|].
  simpl. apply elem_of_cons in Hin as [<-|Hin].
  - pose proof (delete_missing_fails r log b w n Hn) as Hf.
    destruct (delete_entry r log (b, w) n) as [b1 w1]. simpl in Hf. subst b1.
    apply fold_delete_false.
  - pose proof (delete_entry_shrinks r log b w m (r ++ [n])) as Hs.
    destruct (delete_entry r log (b, w) m) as [b1 w1]. simpl in Hs.
    apply IH; [done|]. destruct Hs as [Hs|Hs]; congruence.
Qed.

Lemma purger_true_gone r log names b w w' n :
  fold_left (delete_entry r log) names (b, w) = (true, w') →
  n ∈ names → files w' !! (r ++ [n]) = None.
Proof.
  revert w b. induction names as [|m names IH]; intros w b Hf Hin;
    [by apply elem_of_nil in Hin|].
  simpl in Hf. unfold delete_entry at 2 in Hf. simpl in Hf.
  destruct (delete_attempt r log m w) as [[] w1|e w1] eqn:Hm.
  2:{ pose proof (fold_delete_false r log names
                    (_custom_print log (msg_delete_exn m e) w1)) as Hfalse.
      rewrite Hf in Hfalse. done. }
  destruct (decide (n ∈ names)) as [Hn|Hn]; [by eapply IH|].
  apply elem_of_cons in Hin as [->|Hin]; [|done].
  apply delete_attempt_ok in Hm.
  pose proof (purger_shrinks r log names b w1 (r ++ [m])) as Hs.
  rewrite Hf in Hs. simpl in Hs. destruct Hs as [Hs|Hs]; congruence.
Qed.

(** X10.  The purger only removes: an entry that is there afterwards was
    there before, unchanged, whatever the purger returns. *)
Theorem purger_only_removes (r : path) (names : list string) (log : string) (w : world)
    (p : path) :
  files (_delete_locations r names log w).2 !! p = files w !! p
  ∨ files (_delete_locations r names log w).2 !! p = None.
Proof. apply purger_shrinks. Qed.

(** X11.  When the purger returns true, every name it was given is gone from
    the folder, also a name that stands twice in the list. *)
Theorem purger_success_means_gone (r : path) (names : list string) (log : string)
    (w w' : world) (n : string) :
  _delete_locations r names log w = (true, w') →
  n ∈ names →
  files w' !! (r ++ [n]) = None.
Proof. apply purger_true_gone. Qed.

Lemma purger_success_means_gone_witness :
  files (_delete_locations ["r"] ["old.txt"] "sync.log" w_demo).2 !! (["r"] ++ ["old.txt"])
  = None.
Proof.
  apply (purger_success_means_gone ["r"] ["old.txt"] "sync.log" w_demo
           (_delete_locations ["r"] ["old.txt"] "sync.log" w_demo).2 "old.txt").
  - vm_compute. reflexivity.
  - apply list_elem_of_here.
Defined.

(** X12.  A name that is not in the folder makes the purger return false,
    wherever the name stands in the list. *)
Theorem purger_fails_on_missing_name (r : path) (names : list string) (log : string)
    (w : world) (n : string) :
  n ∈ names →
  files w !! (r ++ [n]) = None →
  (_delete_locations r names log w).1 = false.
Proof. intros Hin Hn. by apply (purger_missing_fails r log names true w n). Qed.

Lemma purger_fails_on_missing_name_witness :
  (_delete_locations ["r"] ["old.txt"; "gone"] "sync.log" w_demo).1 = false.
Proof.
  apply (purger_fails_on_missing_name ["r"] ["old.txt"; "gone"] "sync.log" w_demo "gone").
  - apply list_elem_of_further, list_elem_of_here.
  - vm_compute. reflexivity.
Defined.

(** X13.  A name that is not in the source folder makes the reconciler return
    false, wherever the name stands in the list. *)
Theorem reconciler_fails_on_missing_name (s r : path) (names : list string)
    (log : string) (w : world) (n : string) :
  apart s r →
  n ∈ names →
  files w !! (s ++ [n]) = None →
  (_copy_new_modified_files s r names log w).1 = false.
Proof.
  intros Ha. unfold _copy_new_modified_files. generalize true. revert w.
  induction names as [|m names IH]; intros w b Hin Hn; [by apply elem_of_nil in Hin|].
  simpl. apply elem_of_cons in Hin as [<-|Hin].
  - unfold copy_entry at 2, copy_attempt, os_path_isdir. simpl.
    rewrite bool_decide_eq_false_2 by (by rewrite Hn).
    unfold shutil_copy2. simpl. rewrite Hn. apply fold_copy_false.
  - pose proof (copy_entry_within s r log b w m) as Hw.
    destruct (copy_entry s r log (b, w) m) as [b1 w1]. simpl in Hw.
    apply IH; [done|].
    rewrite (within_names_source s r [m] (files w)); [done| |done].
    by apply within_to_names.
Qed.

Lemma reconciler_fails_on_missing_name_witness :
  (_copy_new_modified_files ["s"] ["r"] ["gone"; "a.txt"] "sync.log" w_demo).1 = false.
Proof.
  apply (reconciler_fails_on_missing_name ["s"] ["r"] ["gone"; "a.txt"] "sync.log"
           w_demo "gone").
  - split; intros [k Hk]; discriminate Hk.
  - apply list_elem_of_here.
  - vm_compute. reflexivity.
Defined.

(** X14.  When the reconciler returns true on names that are new, or files on
    both sides, every one of them is then in the replica folder as it is
    in the source folder: a file with its content and modification time, a
    directory with the whole of its subtree. *)
Theorem reconciler_success_means_copied (s r : path) (names : list string)
    (log : string) (w w' : world) (n : string) :
  apart s r →
  NoDup names →
  (∀ n', n' ∈ names → copyable (files w) s r n') →
  _copy_new_modified_files s r names log w = (true, w') →
  n ∈ names →
  copied (files w') s r n
  ∧ ∀ q, files w' !! ((s ++ [n]) ++ q) = files w !! ((s ++ [n]) ++ q).
Proof.
  intros Ha Hnd Hc Hrun Hn. split; [by eapply reconciler_ok|].
  intros q. rewrite <- app_assoc.
  apply (within_names_source s r names); [|done].
  pose proof (reconciler_within s r names log w) as Hw. by rewrite Hrun in Hw.
Qed.

Lemma reconciler_success_means_copied_witness :
  copied (files (_copy_new_modified_files ["s"] ["r"] ["a.txt"; "d"] "sync.log" w_demo).2)
         ["s"] ["r"] "d"
  ∧ ∀ q, files (_copy_new_modified_files ["s"] ["r"] ["a.txt"; "d"] "sync.log" w_demo).2
           !! ((["s"] ++ ["d"]) ++ q)
         = files w_demo !! ((["s"] ++ ["d"]) ++ q).
Proof.
  apply (reconciler_success_means_copied ["s"] ["r"] ["a.txt"; "d"] "sync.log" w_demo).
  - split; intros [k Hk]; discriminate Hk.
  - apply (bool_decide_unpack _). vm_compute. reflexivity.
  - intros n Hn. left. intros q.
    apply elem_of_cons in Hn as [->|Hn]; [|apply elem_of_cons in Hn as [->|Hn]];
      [| |by apply elem_of_nil in Hn].
    + apply (well_formed_rooted ["r"] fs_demo (well_formedb_true fs_demo eq_refl) ["a.txt"] q).
      vm_compute. reflexivity.
    + apply (well_formed_rooted ["r"] fs_demo (well_formedb_true fs_demo eq_refl) ["d"] q).
      vm_compute. reflexivity.
  - vm_compute. reflexivity.
  - apply list_elem_of_further, list_elem_of_here.
Defined.

(** ** What was printed before does not matter *)

Lemma record_prepend h e w : record e (prepend h w) = prepend h (record e w).
Proof. unfold record, prepend. simpl. by rewrite app_assoc. Qed.

Lemma custom_print_prepend h log m w :
  _custom_print log m (prepend h w) = prepend h (_custom_print log m w).
Proof. unfold _custom_print, _write_to_log, record, prepend. simpl. by rewrite !app_assoc. Qed.

Lemma os_remove_prepend h p w :
  os_remove p (prepend h w) = result_map (prepend h) (os_remove p w).
Proof.
  unfold os_remove. rewrite record_prepend. simpl.
  destruct (files w !! p) as [[]|]; simpl; try done. by case_decide.
Qed.

Lemma shutil_rmtree_prepend h p w :
  shutil_rmtree p (prepend h w) = result_map (prepend h) (shutil_rmtree p w).
Proof.
  unfold shutil_rmtree. rewrite record_prepend. simpl.
  destruct (files w !! p) as [[]|]; simpl; try done. by destruct (elements _).
Qed.

Lemma shutil_copy2_prepend h src dst w :
  shutil_copy2 src dst (prepend h w) = result_map (prepend h) (shutil_copy2 src dst w).
Proof.
  unfold shutil_copy2. rewrite record_prepend. simpl.
  destruct (files w !! src) as [[]|]; simpl; try done.
  case_decide; simpl; try done.
  destruct (files w !! copy2_target _ _ _) as [[]|]; simpl; try done;
    destruct (files w !! dirname _) as [[]|]; simpl; try done; by case_decide.
Qed.

Lemma shutil_copytree_prepend h src dst ok w :
  shutil_copytree src dst ok (prepend h w)
  = result_map (prepend h) (shutil_copytree src dst ok w).
Proof.
  unfold shutil_copytree. rewrite record_prepend. simpl.
  destruct (os_listdir _ _); simpl; try done.
  destruct (os_makedirs _ _ _ _); simpl; try done.
  by destruct (omap _ _).
Qed.

Lemma copy_entry_prepend h s r log b w n :
  copy_entry s r log (b, prepend h w) n
  = ((copy_entry s r log (b, w) n).1, prepend h (copy_entry s r log (b, w) n).2).
Proof.
  unfold copy_entry, copy_attempt. simpl. rewrite !custom_print_prepend.
  destruct (os_path_isdir _ _).
  - rewrite shutil_copytree_prepend. destruct (shutil_copytree _ _ _ _); simpl; [done|].
    by rewrite custom_print_prepend.
  - rewrite shutil_copy2_prepend. destruct (shutil_copy2 _ _ _); simpl; [done|].
    by rewrite custom_print_prepend.
Qed.

Lemma delete_entry_prepend h r log b w n :
  delete_entry r log (b, prepend h w) n
  = ((delete_entry r log (b, w) n).1, prepend h (delete_entry r log (b, w) n).2).
Proof.
  unfold delete_entry, delete_attempt. simpl. rewrite !custom_print_prepend.
  destruct (os_path_isdir _ _).
  - rewrite shutil_rmtree_prepend. destruct (shutil_rmtree _ _); simpl; [done|].
    by rewrite custom_print_prepend.
  - rewrite os_remove_prepend. destruct (os_remove _ _); simpl; [done|].
    by rewrite custom_print_prepend.
Qed.

Lemma fold_prepend h (step : bool * world → string → bool * world) :
  (∀ b w n, step (b, prepend h w) n = ((step (b, w) n).1, prepend h (step (b, w) n).2)) →
  ∀ names b w,
    fold_left step names (b, prepend h w)
    = ((fold_left step names (b, w)).1, prepend h (fold_left step names (b, w)).2).
Proof.
  intros Hstep names. induction names as [|n names IH]; intros b w; simpl; [done|].
  rewrite Hstep. destruct (step (b, w) n) as [b1 w1]. simpl. apply IH.
Qed.

Lemma for_each_prepend h (body : string → world → outcome) :
  (∀ x w, body x (prepend h w) = outcome_map (prepend h) (body x w)) →
  ∀ names w,
    for_each body names (prepend h w) = outcome_map (prepend h) (for_each body names w).
Proof.
  intros Hbody names. induction names as [|x names IH]; intros w; simpl; [done|].
  rewrite Hbody. destruct (body x w); simpl; [apply IH|done..].
Qed.

(** A call does what it does whatever was printed, logged or done before
    it: the earlier history stays in front of what the call adds. *)
Lemma folder_sync_prepend h fuel s r log w :
  _folder_sync fuel s r log (prepend h w)
  = outcome_map (prepend h) (_folder_sync fuel s r log w).
Proof.
  revert s r w. induction fuel as [|fuel IH]; intros s r w; [done|].
  simpl. destruct (os_path_exists (files w) s); simpl.
  2:{ unfold _write_to_log, prepend. simpl. by rewrite app_assoc. }
  destruct (os_path_exists (files w) r); simpl.
  2:{ rewrite custom_print_prepend, shutil_copytree_prepend.
      by destruct (shutil_copytree _ _ _ _). }
  destruct (filecmp_dircmp _ _ _) as [e|cmp]; [done|].
  unfold _copy_new_modified_files, _delete_locations.
  rewrite (fold_prepend h _ (copy_entry_prepend h s r log)).
  destruct (fold_left (copy_entry s r log) _ (true, w)) as [b1 w1]. simpl.
  destruct b1; simpl; [|done].
  rewrite (fold_prepend h _ (delete_entry_prepend h r log)).
  destruct (fold_left (delete_entry r log) _ (true, w1)) as [b2 w2]. simpl.
  destruct b2; simpl; [|done].
  apply for_each_prepend. intros x w'. apply IH.
Qed.

(** ** The script of [_folder_sync.py] *)

(** X15.  The arguments after the fourth are ignored: the script ends as it
    does when called with the first four, in a world that differs only by
    the warning printed first. *)
Theorem extra_arguments_are_ignored (abspath : string → path) (script : string)
    (fuel : nat) (argv : list string) (w : world) :
  (4 < length argv)%nat →
  ∃ o,
    folder_sync_main abspath script fuel (take 4 argv) w
    = outcome_map (prepend (history w)) o ∧
    folder_sync_main abspath script fuel argv w
    = outcome_map (prepend (history w ++ [Print (msg_extra_arguments script argv)])) o.
Proof.
  intros Hlen.
  exists (_folder_sync fuel (abspath (nth 1 argv "")) (abspath (nth 2 argv ""))
            (nth 3 argv "") (unwritten w)).
  unfold folder_sync_main.
  rewrite (decide_False (P := (length (take 4 argv) < 4)%nat))
    by (rewrite length_take; lia).
  rewrite (decide_False (P := (4 < length (take 4 argv))%nat))
    by (rewrite length_take; lia).
  rewrite (decide_False (P := (length argv < 4)%nat)) by lia.
  rewrite (decide_True (P := (4 < length argv)%nat)) by done.
  cbv zeta. rewrite <- !folder_sync_prepend.
  do 5 (destruct argv as [|? argv]; [simpl in Hlen; lia|]). simpl nth. simpl take.
  split; f_equal.
  - destruct w. unfold prepend, unwritten. simpl. by rewrite app_nil_r.
  - destruct w. unfold prepend, unwritten, record. simpl. by rewrite app_nil_r.
Qed.

Lemma extra_arguments_are_ignored_witness :
  ∃ o,
    folder_sync_main name_under_root "_folder_sync.py" 2
      (take 4 ["_folder_sync.py"; "s"; "r"; "sync.log"; "more"]) w_demo
    = outcome_map (prepend (history w_demo)) o ∧
    folder_sync_main name_under_root "_folder_sync.py" 2
      ["_folder_sync.py"; "s"; "r"; "sync.log"; "more"] w_demo
    = outcome_map
        (prepend (history w_demo
                  ++ [Print (msg_extra_arguments "_folder_sync.py"
                               ["_folder_sync.py"; "s"; "r"; "sync.log"; "more"])])) o.
Proof.
  apply (extra_arguments_are_ignored name_under_root "_folder_sync.py" 2
           ["_folder_sync.py"; "s"; "r"; "sync.log"; "more"] w_demo).
  simpl. lia.
Defined.

(** X16.  The warning about extra arguments goes to the console only: of what
    the script printed, the log file has all but this first line. *)
Theorem extra_arguments_warning_is_not_logged (abspath : string → path) (script : string)
    (fuel : nat) (argv : list string) (w w' : world) :
  (4 < length argv)%nat →
  final (folder_sync_main abspath script fuel argv w) = Some w' →
  console_of (events_since w w') ++ log_only (folder_sync_main abspath script fuel argv w)
  = msg_extra_arguments script argv :: log_of (events_since w w').
Proof.
  intros Hlen. unfold folder_sync_main.
  rewrite (decide_False (P := (length argv < 4)%nat)) by lia.
  rewrite (decide_True (P := (4 < length argv)%nat)) by done.
  cbv zeta. set (w0 := record _ w). set (o := _folder_sync _ _ _ _ w0).
  pose proof (folder_sync_parity fuel (abspath (nth 1 argv "")) (abspath (nth 2 argv ""))
                (nth 3 argv "") w0) as Hp.
  fold o in Hp. unfold parity_outcome in Hp. intros Hf. rewrite Hf in Hp.
  destruct Hp as (evs & Hh & Hpar).
  assert (events_since w w' = Print (msg_extra_arguments script argv) :: evs) as ->.
  { apply events_since_app. rewrite Hh. unfold w0. simpl. by rewrite <- app_assoc. }
  simpl. change (log_of (Print _ :: evs)) with (log_of evs). by rewrite Hpar.
Qed.

Lemma extra_arguments_warning_is_not_logged_witness :
  console_of (events_since w_demo w_demo_warned)
  ++ log_only (folder_sync_main name_under_root "_folder_sync.py" 2
                 ["_folder_sync.py"; "s"; "r"; "sync.log"; "more"] w_demo)
  = msg_extra_arguments "_folder_sync.py" ["_folder_sync.py"; "s"; "r"; "sync.log"; "more"]
    :: log_of (events_since w_demo w_demo_warned).
Proof.
  apply (extra_arguments_warning_is_not_logged name_under_root "_folder_sync.py" 2
           ["_folder_sync.py"; "s"; "r"; "sync.log"; "more"] w_demo w_demo_warned).
  - simpl. lia.
  - vm_compute. reflexivity.
Defined.

(** ** The crontab *)

Lemma filter_nil_forall {A} (P : A → Prop) `{∀ x, Decision (P x)} (l : list A) :
  filter P l = [] ↔ Forall (λ x, ¬ P x) l.
Proof.
  induction l as [|x l IH]; [by split|].
  rewrite filter_cons, Forall_cons. case_decide; [|by rewrite IH; tauto].
  split; [done|]. by intros [? _].
Qed.

Lemma filter_all {A} (P : A → Prop) `{∀ x, Decision (P x)} (l : list A) :
  Forall P l → filter P l = l.
Proof.
  induction 1 as [|x l Hx Hl IH]; [done|].
  rewrite filter_cons, decide_True by done. by rewrite IH.
Qed.

Lemma found_jobs_none cmd (cron : list job) :
  length (filter (λ j, command j = cmd) cron) = 0
  ↔ ¬ Exists (λ j, command j = cmd) cron.
Proof.
  rewrite length_zero_iff_nil, filter_nil_forall. split.
  - intros Hno (j & Hj & Hc)%Exists_exists. rewrite Forall_forall in Hno. by apply (Hno j).
  - intros Hno. apply Forall_forall. intros j Hj Hc. apply Hno, Exists_exists. eauto.
Qed.

(** A job set to every [n] minutes. *)
Lemma every_accepted interval n j :
  minutes_of interval = Some n → every interval j = inr (Job (command j) (Some (show_minutes n))).
Proof. intros H. unfold every. by rewrite H. Qed.

Lemma every_refused interval j :
  minutes_of interval = None → every interval j = inl (ValueError (msg_bad_interval interval)).
Proof. intros H. unfold every. by rewrite H. Qed.

Lemma every_found_accepted cmd interval n cron :
  minutes_of interval = Some n →
  every_found cmd interval cron
  = inr (map (λ j, if decide (command j = cmd)
                   then Job (command j) (Some (show_minutes n)) else j) cron).
Proof.
  intros Hn. induction cron as [|j cron IH]; [done|]. simpl.
  rewrite IH, (every_accepted _ _ _ Hn). by case_decide.
Qed.

Lemma every_found_refused cmd interval cron :
  minutes_of interval = None →
  Exists (λ j, command j = cmd) cron →
  every_found cmd interval cron = inl (ValueError (msg_bad_interval interval)).
Proof.
  intros Hn. induction 1 as [j cron Hj|j cron Hex IH]; simpl.
  - by rewrite decide_True, (every_refused _ _ Hn).
  - rewrite IH, (every_refused _ _ Hn). by case_decide.
Qed.

(** The crontab [add_job_to_crontab] leaves, case by case. *)
Lemma add_job_crontab cmd interval c :
  crontab (after (add_job_to_crontab cmd interval c))
  = match minutes_of interval with
    | None => crontab c
    | Some n =>
        if decide (Exists (λ j, command j = cmd) (crontab c)) then
          map (λ j, if decide (command j = cmd)
                    then Job (command j) (Some (show_minutes n)) else j) (crontab c)
        else if decide (cmd = "") then crontab c
        else crontab c ++ [Job (str_strip cmd) (Some (show_minutes n))]
    end.
Proof.
  unfold add_job_to_crontab. cbv zeta.
  destruct (minutes_of interval) as [n|] eqn:Hn.
  - case_decide as Hlen.
    + apply found_jobs_none in Hlen. rewrite (decide_False (P := Exists _ _)) by done.
      rewrite (every_accepted _ _ _ Hn). by case_decide.
    + assert (Exists (λ j, command j = cmd) (crontab c)) as Hex.
      { destruct (decide (Exists (λ j, command j = cmd) (crontab c))); [done|].
        destruct Hlen. by apply found_jobs_none. }
      rewrite decide_True by done. by rewrite (every_found_accepted _ _ _ _ Hn).
  - case_decide as Hlen.
    + by rewrite (every_refused _ _ Hn).
    + assert (Exists (λ j, command j = cmd) (crontab c)) as Hex.
      { destruct (decide (Exists (λ j, command j = cmd) (crontab c))); [done|].
        destruct Hlen. by apply found_jobs_none. }
      by rewrite (every_found_refused _ _ _ Hn Hex).
Qed.

Lemma add_job_crontab_ext cmd interval c1 c2 :
  crontab c1 = crontab c2 →
  crontab (after (add_job_to_crontab cmd interval c1))
  = crontab (after (add_job_to_crontab cmd interval c2)).
Proof. intros H. by rewrite !add_job_crontab, H. Qed.

Lemma del_job_crontab cmd c :
  crontab (del_job_from_crontab cmd c) = filter (λ j, command j ≠ cmd) (crontab c).
Proof.
  unfold del_job_from_crontab. case_decide as Hlen; [done|]. simpl.
  symmetry. apply filter_all.
  assert (filter (λ j, command j = cmd) (crontab c) = []) as Hnil
    by (apply length_zero_iff_nil; lia).
  by apply filter_nil_forall in Hnil.
Qed.

Lemma retimed_others cmd (f : job → job) (l : list job) :
  (∀ j, command (f j) = command j) →
  filter (λ j, command j ≠ cmd) (map (λ j, if decide (command j = cmd) then f j else j) l)
  = filter (λ j, command j ≠ cmd) l.
Proof.
  intros Hf. induction l as [|j l IH]; [done|]. simpl.
  rewrite !filter_cons. destruct (decide (command j = cmd)) as [Hc|Hc]; simpl.
  - rewrite !decide_False; [done|by intros []|rewrite Hf; by intros []].
  - by rewrite !decide_True, IH by done.
Qed.

Lemma retimed_matching cmd (f : job → job) (l : list job) :
  (∀ j, command (f j) = command j) →
  filter (λ j, command j = cmd) (map (λ j, if decide (command j = cmd) then f j else j) l)
  = map f (filter (λ j, command j = cmd) l).
Proof.
  intros Hf. induction l as [|j l IH]; [done|]. simpl.
  rewrite !filter_cons. destruct (decide (command j = cmd)) as [Hc|Hc]; simpl.
  - rewrite decide_True, IH; [done|]. by rewrite Hf.
  - by rewrite decide_False, IH by done.
Qed.

(** X17.  [add_job_to_crontab] for a plain command.  When the interval is
    one the library accepts, the call returns: the jobs with that command
    are the ones that were there, each set to the interval, or one new job
    when there was none; the jobs with other commands are as they were, in
    their order; one line was printed.  When the interval is refused, the
    call raises [ValueError], and nothing was written or printed. *)
Theorem add_job_schedules_the_command (cmd interval : string) (c : cron_world) :
  plain_command cmd →
  match minutes_of interval with
  | Some n =>
      ∃ c', add_job_to_crontab cmd interval c = CronReturned c' ∧
        filter (λ j, command j = cmd) (crontab c')
        = match filter (λ j, command j = cmd) (crontab c) with
          | [] => [Job cmd (Some (show_minutes n))]
          | found_jobs =>
              map (λ j, Job (command j) (Some (show_minutes n))) found_jobs
          end ∧
        filter (λ j, command j ≠ cmd) (crontab c')
        = filter (λ j, command j ≠ cmd) (crontab c) ∧
        ∃ line, stdout c' = stdout c ++ [line]
  | None =>
      add_job_to_crontab cmd interval c
      = CronRaised (ValueError (msg_bad_interval interval)) c
  end.
Proof.
  intros (Hne & Hstrip & _).
  destruct (minutes_of interval) as [n|] eqn:Hn.
  - assert (∃ c', add_job_to_crontab cmd interval c = CronReturned c'
                  ∧ ∃ line, stdout c' = stdout c ++ [line]) as (c' & Hret & Hout).
    { unfold add_job_to_crontab. cbv zeta. case_decide.
      - rewrite (every_accepted _ _ _ Hn). rewrite (decide_False (P := cmd = "")) by done.
        eexists. split; [done|]. simpl. by eexists.
      - rewrite (every_found_accepted _ _ _ _ Hn).
        eexists. split; [done|]. simpl. by eexists. }
    pose proof (add_job_crontab cmd interval c) as Hcron. rewrite Hn in Hcron.
    exists c'. split; [done|]. rewrite Hret in Hcron. simpl in Hcron.
    split; [|split; [|done]]; rewrite Hcron.
    + case_decide as Hex.
      * rewrite retimed_matching by done.
        destruct (filter _ (crontab c)) as [|j l] eqn:Hf; [|done].
        apply filter_nil_forall in Hf. apply Exists_exists in Hex as (j & Hj & Hc).
        rewrite Forall_forall in Hf. by destruct (Hf j Hj).
      * rewrite decide_False by done.
        apply not_Exists_Forall in Hex; [|apply _].
        rewrite filter_app, (proj2 (filter_nil_forall _ _) Hex). simpl.
        rewrite filter_cons, decide_True by done. by rewrite Hstrip.
    + case_decide as Hex.
      * by apply retimed_others.
      * rewrite decide_False by done. rewrite filter_app. simpl.
        rewrite filter_cons, decide_False by (simpl; rewrite Hstrip; by intros []).
        by rewrite filter_nil, app_nil_r.
  - unfold add_job_to_crontab. cbv zeta. case_decide as Hlen.
    + by rewrite (every_refused _ _ Hn).
    + rewrite (every_found_refused _ _ _ Hn); [done|].
      destruct (decide (Exists (λ j, command j = cmd) (crontab c))); [done|].
      destruct Hlen. by apply found_jobs_none.
Qed.

Lemma add_job_schedules_the_command_witness :
  ∃ c', add_job_to_crontab "sync /s /r" " 5" (CronWorld [Job "backup" (Some "30")] [])
        = CronReturned c' ∧
    filter (λ j, command j = "sync /s /r") (crontab c')
    = match filter (λ j, command j = "sync /s /r")
              (crontab (CronWorld [Job "backup" (Some "30")] [])) with
      | [] => [Job "sync /s /r" (Some (show_minutes 5))]
      | found_jobs => map (λ j, Job (command j) (Some (show_minutes 5))) found_jobs
      end ∧
    filter (λ j, command j ≠ "sync /s /r") (crontab c')
    = filter (λ j, command j ≠ "sync /s /r")
        (crontab (CronWorld [Job "backup" (Some "30")] [])) ∧
    ∃ line, stdout c' = stdout (CronWorld [Job "backup" (Some "30")] []) ++ [line].
Proof.
  apply (add_job_schedules_the_command "sync /s /r" " 5"
           (CronWorld [Job "backup" (Some "30")] [])).
  split; [discriminate|]. split; vm_compute; reflexivity.
Defined.

(** Adding twice, for a plain command and an accepted second interval. *)
Lemma add_job_twice_keeps cmd interval interval' n' c :
  plain_command cmd →
  minutes_of interval' = Some n' →
  crontab (after (add_job_to_crontab cmd interval'
                    (after (add_job_to_crontab cmd interval c))))
  = crontab (after (add_job_to_crontab cmd interval' c)).
Proof.
  intros (Hne & Hstrip & _) Hn'.
  rewrite (add_job_crontab cmd interval'), Hn'.
  rewrite (add_job_crontab cmd interval), (add_job_crontab cmd interval'), Hn'.
  destruct (minutes_of interval) as [n|]; [|done].
  destruct (decide (Exists (λ j, command j = cmd) (crontab c))) as [Hex|Hex].
  - rewrite decide_True; last first.
    { apply Exists_exists in Hex as (j & Hj & Hc). apply Exists_exists.
      exists (Job (command j) (Some (show_minutes n))). split; [|done].
      apply list_elem_of_fmap. exists j. split; [by rewrite decide_True|done]. }
    rewrite <- list_fmap_compose. apply list_fmap_ext. intros _ j _. simpl.
    destruct (decide (command j = cmd)); simpl;
      [by rewrite decide_True|by rewrite decide_False].
  - rewrite !(decide_False (P := cmd = "")) by done.
    rewrite decide_True by (apply Exists_app; right; constructor; simpl; by rewrite Hstrip).
    apply not_Exists_Forall in Hex; [|apply _].
    rewrite fmap_app. simpl. rewrite Hstrip, decide_True by done. f_equal.
    rewrite <- (list_fmap_id (crontab c)) at 2. apply list_fmap_ext.
    intros i j Hj. rewrite decide_False; [done|].
    rewrite Forall_forall in Hex. apply (Hex j). by eapply list_elem_of_lookup_2.
Qed.

(** X18.  Adding a plain command a second time, with an interval the
    library accepts, does not duplicate it: the crontab is the one a single
    call with the second interval gives. *)
Theorem add_job_twice_keeps_one (cmd interval interval' : string) (n' : N)
    (c : cron_world) :
  plain_command cmd →
  minutes_of interval' = Some n' →
  crontab (after (add_job_to_crontab cmd interval'
                    (after (add_job_to_crontab cmd interval c))))
  = crontab (after (add_job_to_crontab cmd interval' c)).
Proof. apply add_job_twice_keeps. Qed.

Lemma add_job_twice_keeps_one_witness :
  crontab (after (add_job_to_crontab "sync /s /r" "10"
                    (after (add_job_to_crontab "sync /s /r" "5" (CronWorld [] [])))))
  = crontab (after (add_job_to_crontab "sync /s /r" "10" (CronWorld [] []))).
Proof.
  apply (add_job_twice_keeps_one "sync /s /r" "5" "10" 10 (CronWorld [] [])).
  - split; [discriminate|]. split; vm_compute; reflexivity.
  - vm_compute. reflexivity.
Defined.

(** X19.  [del_job_from_crontab] removes every job with the command and
    leaves the others as they were, in their order; what it prints tells
    whether there was one. *)
Theorem del_job_removes_every_match cmd c :
  let c' := del_job_from_crontab cmd c in
  crontab c' = filter (λ j, command j ≠ cmd) (crontab c)
  ∧ Forall (λ j, command j ≠ cmd) (crontab c')
  ∧ stdout c'
    = stdout c ++ [if decide (Exists (λ j, command j = cmd) (crontab c))
                   then "Cron job(s) with command " +:+ cmd +:+ " removed."
                   else "No matching cron job found for command " +:+ cmd].
Proof.
  cbv zeta. split_and!.
  - apply del_job_crontab.
  - rewrite del_job_crontab. apply Forall_forall. intros j Hj.
    by apply list_elem_of_filter in Hj as [? _].
  - unfold del_job_from_crontab. case_decide as Hlen; case_decide as Hex; try done; simpl.
    + destruct Hex. destruct (filter _ (crontab c)) as [|j l] eqn:Hf; [simpl in Hlen; lia|].
      assert (j ∈ filter (λ j, command j = cmd) (crontab c)) as Hj
        by (rewrite Hf; left).
      apply list_elem_of_filter in Hj as [? ?]. apply Exists_exists. by exists j.
    + destruct Hlen. apply Exists_exists in Hex as (j & Hj & Hc).
      assert (j ∈ filter (λ j, command j = cmd) (crontab c)) as Hj'
        by (by apply list_elem_of_filter).
      destruct (filter _ (crontab c)); [by apply elem_of_nil in Hj'|simpl; lia].
Qed.

(** X20.  Removing after adding undoes the addition: for a plain command
    that the crontab did not have, whether the interval was accepted or
    refused, the crontab is back as it was. *)
Theorem add_then_del_restores (cmd interval : string) (c : cron_world) :
  plain_command cmd →
  Forall (λ j, command j ≠ cmd) (crontab c) →
  crontab (del_job_from_crontab cmd (after (add_job_to_crontab cmd interval c)))
  = crontab c.
Proof.
  intros (Hne & Hstrip & _) Hno. rewrite del_job_crontab, add_job_crontab.
  destruct (minutes_of interval) as [n|]; [|by apply filter_all].
  case_decide as Hex.
  - rewrite retimed_others by done. by apply filter_all.
  - rewrite decide_False by done. rewrite filter_app. simpl.
    rewrite filter_cons, decide_False by (simpl; rewrite Hstrip; by intros []).
    rewrite filter_nil, app_nil_r. by apply filter_all.
Qed.

Lemma add_then_del_restores_witness :
  crontab (del_job_from_crontab "sync /s /r"
             (after (add_job_to_crontab "sync /s /r" "5"
                       (CronWorld [Job "backup" (Some "30")] []))))
  = crontab (CronWorld [Job "backup" (Some "30")] []).
Proof.
  apply (add_then_del_restores "sync /s /r" "5" (CronWorld [Job "backup" (Some "30")] [])).
  - split; [discriminate|]. split; vm_compute; reflexivity.
  - repeat constructor. simpl. discriminate.
Defined.

(** ** The scheduler script, run after run *)

Lemma lower_ascii_idem c : lower_ascii (lower_ascii c) = lower_ascii c.
Proof. destruct c as [[] [] [] [] [] [] [] []]; reflexivity. Qed.

Lemma lower_idem s : lower (lower s) = lower s.
Proof. induction s as [|c s IH]; simpl; [done|]. by rewrite lower_ascii_idem, IH. Qed.

(** The crontab the script leaves, in terms of the one it found. *)
Lemma main_crontab env argv c :
  crontab (exit_world (main env argv c))
  = if decide (length argv < 6) then crontab c
    else if decide (lower (nth 5 argv "") = _MODE_ADD) then
      crontab (after (add_job_to_crontab (command_to_add env argv) (nth 3 argv "")
                        (CronWorld (crontab c) [])))
    else if decide (lower (nth 5 argv "") = _MODE_DEL) then
      crontab (del_job_from_crontab (command_to_add env argv) (CronWorld (crontab c) []))
    else crontab c.
Proof.
  unfold main. case_decide; [done|]. cbv zeta.
  set (c0 := if decide (6 < length argv) then _ else c).
  assert (crontab c0 = crontab c) as Hc0 by (unfold c0; by case_decide).
  case_decide.
  - rewrite <- (add_job_crontab_ext _ _ c0) by done.
    by destruct (add_job_to_crontab _ _ c0).
  - case_decide; simpl; [|done]. by rewrite !del_job_crontab, Hc0.
Qed.

(** X21.  The mode is read without regard to case: with the mode in capitals
    the script leaves the crontab, and prints, what it does with the mode
    in small letters. *)
Theorem mode_is_read_without_case (env : main_env) (a0 src rep i logf m : string)
    (rest : list string) (c : cron_world) :
  exit_world (main env (a0 :: src :: rep :: i :: logf :: m :: rest) c)
  = exit_world (main env (a0 :: src :: rep :: i :: logf :: lower m :: rest) c).
Proof.
  unfold main. simpl length.
  rewrite !(decide_False (P := (S (S (S (S (S (S (length rest)))))) < 6)%nat)) by lia.
  simpl. rewrite lower_idem.
  change (command_to_add env (a0 :: src :: rep :: i :: logf :: lower m :: rest))
    with (command_to_add env (a0 :: src :: rep :: i :: logf :: m :: rest)).
  case_decide; [|done]. by destruct (add_job_to_crontab _ _ _).
Qed.

(** X22.  The arguments after the sixth do not reach the crontab: the script
    leaves the crontab it leaves when called with the first six. *)
Theorem extra_arguments_do_not_reach_the_crontab (env : main_env) (argv : list string)
    (c : cron_world) :
  crontab (exit_world (main env argv c))
  = crontab (exit_world (main env (take 6 argv) c)).
Proof.
  destruct (decide (length argv < 6)%nat) as [Hlt|Hge].
  - by rewrite take_ge by lia.
  - rewrite !main_crontab. rewrite (decide_False (P := (length argv < 6)%nat)) by done.
    rewrite (decide_False (P := (length (take 6 argv) < 6)%nat))
      by (rewrite length_take; lia).
    do 6 (destruct argv as [|? argv]; [simpl in Hge; lia|]). done.
Qed.

(** X23.  A run with the mode del undoes a run with the mode add for the
    same folders and log file, whatever the intervals, when the command
    made of them is plain: the jobs left are those that were there with
    another command. *)
Theorem del_run_undoes_add_run (env : main_env) (a0 a0' src rep i i' logf m m' : string)
    (rest rest' : list string) (c : cron_world) :
  let argv := a0 :: src :: rep :: i :: logf :: m :: rest in
  let argv' := a0' :: src :: rep :: i' :: logf :: m' :: rest' in
  lower m = _MODE_ADD →
  lower m' = _MODE_DEL →
  plain_command (command_to_add env argv) →
  crontab (exit_world (main env argv' (exit_world (main env argv c))))
  = filter (λ j, command j ≠ command_to_add env argv) (crontab c).
Proof.
  cbv zeta. intros Hm Hm' (Hne & Hstrip & _). rewrite !main_crontab. simpl length.
  rewrite !(decide_False (P := (S (S (S (S (S (S (length _)))))) < 6)%nat)) by lia.
  simpl nth. rewrite Hm, Hm'. simpl.
  rewrite del_job_crontab. simpl.
  change (command_to_add env (a0' :: src :: rep :: i' :: logf :: m' :: rest'))
    with (command_to_add env (a0 :: src :: rep :: i :: logf :: m :: rest)).
  set (cmd := command_to_add env _) in *.
  rewrite add_job_crontab. simpl.
  destruct (minutes_of i) as [n|]; [|done].
  case_decide.
  - by apply retimed_others.
  - rewrite filter_app. simpl.
    rewrite filter_cons, decide_False by (simpl; rewrite Hstrip; by intros []).
    by rewrite filter_nil, app_nil_r.
Qed.

Lemma del_run_undoes_add_run_witness :
  let env := MainEnv "main.py" "/opt/sync" false in
  let argv := ["main.py"; "/s"; "/r"; "5"; "/sync.log"; "ADD"] in
  let argv' := ["main.py"; "/s"; "/r"; "10"; "/sync.log"; "Del"; "more"] in
  crontab (exit_world (main env argv' (exit_world (main env argv (CronWorld [] [])))))
  = filter (λ j, command j ≠ command_to_add env argv) (crontab (CronWorld [] [])).
Proof.
  apply (del_run_undoes_add_run (MainEnv "main.py" "/opt/sync" false)
           "main.py" "main.py" "/s" "/r" "5" "10" "/sync.log" "ADD" "Del" [] ["more"]).
  - reflexivity.
  - reflexivity.
  - split; [discriminate|]. split; vm_compute; reflexivity.
Defined.

(** X24.  A second run with the mode add for the same folders and log file,
    with an interval the library accepts and a plain command, does not add
    a second job: the crontab is the one a single run with the second
    interval leaves. *)
Theorem second_add_run_keeps_one_job (env : main_env) (a0 a0' src rep i i' logf m m' : string)
    (rest rest' : list string) (n' : N) (c : cron_world) :
  let argv := a0 :: src :: rep :: i :: logf :: m :: rest in
  let argv' := a0' :: src :: rep :: i' :: logf :: m' :: rest' in
  lower m = _MODE_ADD →
  lower m' = _MODE_ADD →
  plain_command (command_to_add env argv) →
  minutes_of i' = Some n' →
  crontab (exit_world (main env argv' (exit_world (main env argv c))))
  = crontab (exit_world (main env argv' c)).
Proof.
  cbv zeta. intros Hm Hm' Hplain Hn'. rewrite !main_crontab. simpl length.
  rewrite !(decide_False (P := (S (S (S (S (S (S (length _)))))) < 6)%nat)) by lia.
  simpl nth. rewrite Hm, Hm'. simpl.
  change (command_to_add env (a0' :: src :: rep :: i' :: logf :: m' :: rest'))
    with (command_to_add env (a0 :: src :: rep :: i :: logf :: m :: rest)).
  set (cmd := command_to_add env _) in *.
  rewrite <- (add_job_twice_keeps cmd i i' n' (CronWorld (crontab c) [])) by done.
  by apply add_job_crontab_ext.
Qed.

Lemma second_add_run_keeps_one_job_witness :
  let env := MainEnv "main.py" "/opt/sync" false in
  let argv := ["main.py"; "/s"; "/r"; "5"; "/sync.log"; "add"] in
  let argv' := ["main.py"; "/s"; "/r"; "10"; "/sync.log"; "Add"] in
  crontab (exit_world (main env argv' (exit_world (main env argv (CronWorld [] [])))))
  = crontab (exit_world (main env argv' (CronWorld [] []))).
Proof.
  apply (second_add_run_keeps_one_job (MainEnv "main.py" "/opt/sync" false)
           "main.py" "main.py" "/s" "/r" "5" "10" "/sync.log" "add" "Add" [] [] 10).
  - reflexivity.
  - reflexivity.
  - split; [discriminate|]. split; vm_compute; reflexivity.
  - vm_compute. reflexivity.
Defined.
